(** * SEO-prompter: the content-similarity and clustering engine

    A shallow embedding of [src/lib/enhancedExcelParser.ts]
    (class [EnhancedExcelParser]) and the properties of its analysis
    functions.

    Modelling conventions.
    - A JavaScript [number] is an IEEE 754 binary64 value: Rocq's primitive
      [float], whose operations are specified by [SpecFloat].
    - A JavaScript string is a sequence of code units; the embedding covers
      Latin-1 text, one [ascii] per code unit (code points 0..255).
    - A value of type [string | undefined] is an [option string].
    - A call that raises a [TypeError] returns [None]. *)

From Stdlib Require Import List String Ascii Bool Arith ZArith Lia.
From Stdlib Require Import Permutation Sorted DecimalString.
From Stdlib Require Import Floats Uint63.
Import ListNotations.

Set Warnings "-inexact-float".

Local Open Scope string_scope.
Local Open Scope list_scope.
Local Open Scope nat_scope.

(** ** JavaScript primitives used by the parser *)

Module JS.

(** [undefined] and the empty string are falsy; every other string is truthy. *)
Definition truthy (v : option string) : bool :=
  match v with
  | Some s => negb (String.eqb s "")
  | None => false
  end.

(** [v || d] on a value of type [string | undefined]. *)
Definition orElse (v : option string) (d : string) : string :=
  match v with
  | Some s => if String.eqb s "" then d else s
  | None => d
  end.

(** [v || ''] *)
Definition orEmpty (v : option string) : string := orElse v "".

(** [a === b] on values of type [string | undefined]. *)
Definition strictEquals (a b : option string) : bool :=
  match a, b with
  | Some x, Some y => String.eqb x y
  | None, None => true
  | _, _ => false
  end.

(** [String.prototype.toLowerCase] on Latin-1: A-Z and U+00C0..U+00DE
    (except the multiplication sign U+00D7) move up by 32. *)
Definition toLowerCaseChar (c : ascii) : ascii :=
  let n := nat_of_ascii c in
  if ((65 <=? n) && (n <=? 90)) || ((192 <=? n) && (n <=? 222) && negb (n =? 215))
  then ascii_of_nat (n + 32)
  else c.

Fixpoint toLowerCase (s : string) : string :=
  match s with
  | EmptyString => EmptyString
  | String c s' => String (toLowerCaseChar c) (toLowerCase s')
  end.

(** White space and line terminators of ECMAScript below U+0100:
    TAB, LF, VT, FF, CR, SP and NBSP. *)
Definition isWhiteSpace (c : ascii) : bool :=
  let n := nat_of_ascii c in
  ((9 <=? n) && (n <=? 13)) || (n =? 32) || (n =? 160).

Fixpoint trimStart (s : string) : string :=
  match s with
  | EmptyString => EmptyString
  | String c s' => if isWhiteSpace c then trimStart s' else s
  end.

Fixpoint trimEnd (s : string) : string :=
  match s with
  | EmptyString => EmptyString
  | String c s' =>
      match trimEnd s' with
      | EmptyString => if isWhiteSpace c then EmptyString else String c EmptyString
      | t => String c t
      end
  end.

(** [String.prototype.trim] *)
Definition trim (s : string) : string := trimEnd (trimStart s).

(** [s.split(sep)] for a one-character separator: the pieces between
    separators, in order; the empty string splits into one empty piece. *)
Fixpoint split (sep : ascii) (s : string) : list string :=
  match s with
  | EmptyString => [EmptyString]
  | String c s' =>
      if Ascii.eqb c sep then EmptyString :: split sep s'
      else match split sep s' with
           | w :: ws => String c w :: ws
           | [] => [String c EmptyString]
           end
  end.

(** [Array.prototype.includes] on an array of strings. *)
Definition includes (l : list string) (k : string) : bool :=
  existsb (String.eqb k) l.

(** [String.prototype.includes]: [sub] occurs in [s]. *)
Fixpoint includesStr (s sub : string) : bool :=
  if String.prefix sub s then true
  else match s with
       | EmptyString => false
       | String _ s' => includesStr s' sub
       end.

(** The number of an array length or index (an integer below 2^32). *)
Definition num (n : nat) : float := of_uint63 (Uint63.of_Z (Z.of_nat n)).

(** [Math.min(x, y)] and [Math.max(x, y)]: NaN if either is NaN, and
    [-0] is below [+0]. *)
Definition Math_min (x y : float) : float :=
  if is_nan x || is_nan y then nan
  else if (x <? y)%float then x
  else if (y <? x)%float then y
  else if get_sign x then x else y.

Definition Math_max (x y : float) : float :=
  if is_nan x || is_nan y then nan
  else if (x <? y)%float then y
  else if (y <? x)%float then x
  else if get_sign x then y else x.

(** [Math.ceil]: the least integral value not below [x]. *)
Definition Math_ceil (x : float) : float :=
  match Prim2SF x with
  | S754_finite s m e =>
      if (0 <=? e)%Z then x
      else
        let d := (2 ^ (- e))%Z in
        let q := (Z.pos m / d)%Z in
        if s then (if (q =? 0)%Z then neg_zero else (- of_uint63 (Uint63.of_Z q))%float)
        else of_uint63 (Uint63.of_Z (if (Z.pos m mod d =? 0)%Z then q else q + 1))
  | _ => x
  end.

(** The decimal digits of a number interpolated in a template literal. *)
Definition decimal (n : nat) : string := NilZero.string_of_uint (Nat.to_uint n).

(** [String.fromCharCode(code)] for a code below 256. *)
Definition fromCharCode (code : Z) : ascii := ascii_of_nat (Z.to_nat code).

(** An object used as a [Record<string, string>]: its own properties in
    insertion order. *)
Definition Object := list (string * string).

(** [obj[key]], [undefined] when the property is missing. *)
Fixpoint getProp (obj : Object) (key : string) : option string :=
  match obj with
  | [] => None
  | (k, v) :: rest => if String.eqb k key then Some v else getProp rest key
  end.

(** [obj[key] = value]: a new property goes last, an existing one keeps
    its place. *)
Fixpoint setProp (obj : Object) (key value : string) : Object :=
  match obj with
  | [] => [(key, value)]
  | (k, v) :: rest =>
      if String.eqb k key then (k, value) :: rest
      else (k, v) :: setProp rest key value
  end.

(** [array.sort(compare)]: the stable order in which [x] moves behind [y]
    only when [compare(x, y)] is above zero. *)
Fixpoint insertSorted {A : Type} (compare : A -> A -> float) (x : A) (l : list A) : list A :=
  match l with
  | [] => [x]
  | y :: l' => if (0 <? compare x y)%float then y :: insertSorted compare x l' else x :: l
  end.

Definition sort {A : Type} (compare : A -> A -> float) (l : list A) : list A :=
  fold_right (insertSorted compare) [] l.

End JS.

(** ** Data model *)

(** An [EnhancedExcelRow] object. [ref] is the identity of the object
    (what [===] on two rows compares); the parser reads the properties
    [B] (title), [C] (keywords), [D] (pillar) and [published_url]. *)
Record EnhancedExcelRow := mkRow {
  ref : nat;
  B : option string;
  C : option string;
  D : option string;
  published_url : option string
}.

(** The object literals [{ title, keywords, pillar }] handed to
    [calculateSimilarity], whose parameters have type [any]. *)
Record Post := mkPost {
  title : option string;
  keywords : option string;
  pillar : option string
}.

Module MainPost.
Record t := mk { index : nat; row : EnhancedExcelRow }.
End MainPost.

Module SimilarPost.
Record t := mk { index : nat; similarity : float; row : EnhancedExcelRow }.
End SimilarPost.

Module ClusterLink.
Record t := mk {
  fromIndex : nat;
  toIndex : nat;
  suggestedAnchor : string;
  relevance : float
}.
End ClusterLink.

Record SemanticCluster := mkCluster {
  id : string;
  mainPost : MainPost.t;
  relatedPosts : list SimilarPost.t;
  theme : string;
  internalLinkOpportunities : list ClusterLink.t
}.

Record InternalLinkOpportunity := mkOpportunity {
  postIndex : nat;
  opp_title : string;
  url : string;
  suggestedLinks : list string
}.

Record ContentGap := mkGap {
  gap_pillar : string;
  currentCount : nat;
  suggestedCount : float;
  gap : float
}.

(** A [Record<string, number>] in insertion order. Pillar labels are taken
    not to be array-index strings or names inherited from
    [Object.prototype]; the counts are integers. *)
Definition Distribution := list (string * nat).

Record ContentAnalysisResult := mkResult {
  totalPosts : nat;
  publishedPosts : nat;
  pillarDistribution : Distribution;
  semanticClusters : list SemanticCluster;
  linkOpportunities : list InternalLinkOpportunity;
  contentGaps : list ContentGap
}.

(** ** The option monad for calls that may raise *)

Definition bind {A B : Type} (m : option A) (f : A -> option B) : option B :=
  match m with
  | Some a => f a
  | None => None
  end.

Notation "x <- m ;; k" := (bind m (fun x => k))
  (at level 61, m at next level, right associativity).

Fixpoint mapM {A B : Type} (f : A -> option B) (l : list A) : option (list B) :=
  match l with
  | [] => Some []
  | a :: l' => b <- f a ;; bs <- mapM f l' ;; Some (b :: bs)
  end.

Fixpoint filterM {A : Type} (f : A -> option bool) (l : list A) : option (list A) :=
  match l with
  | [] => Some []
  | a :: l' => b <- f a ;; r <- filterM f l' ;; Some (if b then a :: r else r)
  end.

(** [array.map((x, i) => ...)]: the elements paired with their positions. *)
Fixpoint indexedFrom {A : Type} (i : nat) (l : list A) : list (nat * A) :=
  match l with
  | [] => []
  | a :: l' => (i, a) :: indexedFrom (S i) l'
  end.

Definition indexed {A : Type} (l : list A) : list (nat * A) := indexedFrom 0 l.

(** ** EnhancedExcelParser *)

(** [calculateTextSimilarity(text1, text2)]; reading [toLowerCase] of
    [undefined] raises. *)
Definition calculateTextSimilarity (text1 text2 : option string) : option float :=
  t1 <- text1 ;;
  t2 <- text2 ;;
  let words1 := JS.split " " (JS.toLowerCase t1) in
  let words2 := JS.split " " (JS.toLowerCase t2) in
  let sharedWords := filter (fun word => JS.includes words2 word) words1 in
  Some (JS.num (List.length sharedWords)
        / JS.Math_max (JS.num (List.length words1)) (JS.num (List.length words2)))%float.

(** [raw.toLowerCase().split(',').map(k => k.trim())] *)
Definition keywordTokens (raw : string) : list string :=
  map JS.trim (JS.split "," (JS.toLowerCase raw)).

(** [calculateSimilarity(post1, post2)] *)
Definition calculateSimilarity (post1 post2 : Post) : option float :=
  k1 <- keywords post1 ;;
  k2 <- keywords post2 ;;
  let keywords1 := keywordTokens k1 in
  let keywords2 := keywordTokens k2 in
  let sharedKeywords := filter (fun k => JS.includes keywords2 k) keywords1 in
  let keywordSimilarity :=
    (JS.num (List.length sharedKeywords)
     / JS.Math_max (JS.num (List.length keywords1)) (JS.num (List.length keywords2)))%float in
  let pillarMatch := if JS.strictEquals (pillar post1) (pillar post2) then 0.3%float else 0%float in
  ts <- calculateTextSimilarity (title post1) (title post2) ;;
  let titleSimilarity := (ts * 0.4)%float in
  Some (JS.Math_min (keywordSimilarity * 0.5 + pillarMatch + titleSimilarity) 1)%float.

(** [extractTheme(title, keywords)] *)
Definition commonThemes : list string :=
  ["wine tasting"; "wedding"; "vineyard"; "events"; "sustainability"; "harvest"].

Definition extractTheme (title keywords : string) : string :=
  let allWords := JS.toLowerCase (title ++ " " ++ keywords)%string in
  match find (fun theme => JS.includesStr allWords theme) commonThemes with
  | Some theme => theme
  | None => "General"
  end.

(** [generateAnchorText(title)] *)
Definition generateAnchorText (title : string) : string :=
  if 50 <? String.length title then (String.substring 0 47 title ++ "...")%string else title.

(** The [Set<number>] of processed indices. *)
Definition IndexSet := list nat.

Definition has (s : IndexSet) (i : nat) : bool := existsb (Nat.eqb i) s.

Definition add (s : IndexSet) (i : nat) : IndexSet := i :: s.

(** [.filter(post => post !== null)] *)
Fixpoint nonNull {A : Type} (l : list (option A)) : list A :=
  match l with
  | [] => []
  | Some a :: l' => a :: nonNull l'
  | None :: l' => nonNull l'
  end.

(** The object literal [{ title: row.B || '', keywords: row.C || '',
    pillar: row.D || '' }]. *)
Definition postOf (row : EnhancedExcelRow) : Post :=
  mkPost (Some (JS.orEmpty (B row))) (Some (JS.orEmpty (C row))) (Some (JS.orEmpty (D row))).

(** The [similarPosts] of the row at [index], given the indices processed
    so far (the [rows.map(...).filter(...)] of lines 75-90). *)
Definition similarPostsOf (rows : list EnhancedExcelRow) (processed : IndexSet)
    (index : nat) (row : EnhancedExcelRow) : option (list SimilarPost.t) :=
  let title := JS.orEmpty (B row) in
  let keywords := JS.orEmpty (C row) in
  let pillar := JS.orEmpty (D row) in
  posts <- mapM (fun '(otherIndex, otherRow) =>
             if (index =? otherIndex) || has processed otherIndex then Some None
             else
               similarity <- calculateSimilarity
                               (mkPost (Some title) (Some keywords) (Some pillar))
                               (mkPost (Some (JS.orEmpty (B otherRow)))
                                       (Some (JS.orEmpty (C otherRow)))
                                       (Some (JS.orEmpty (D otherRow)))) ;;
               Some (if (0.3 <? similarity)%float
                     then Some (SimilarPost.mk otherIndex similarity otherRow)
                     else None))
           (indexed rows) ;;
  Some (nonNull posts).

(** One call of the [forEach] callback of [identifySemanticClusters] on the
    state [(clusters, processed)]. *)
Definition clusterStep (rows : list EnhancedExcelRow)
    (st : list SemanticCluster * IndexSet) (ir : nat * EnhancedExcelRow)
    : option (list SemanticCluster * IndexSet) :=
  let '(clusters, processed) := st in
  let '(index, row) := ir in
  if has processed index then Some st
  else
    similarPosts <- similarPostsOf rows processed index row ;;
    if 0 <? List.length similarPosts then
      let cluster :=
        mkCluster ("cluster-" ++ JS.decimal (List.length clusters))%string
                  (MainPost.mk index row)
                  similarPosts
                  (extractTheme (JS.orEmpty (B row)) (JS.orEmpty (C row)))
                  (map (fun post =>
                          ClusterLink.mk index (SimilarPost.index post)
                            (generateAnchorText (JS.orEmpty (B (SimilarPost.row post))))
                            (SimilarPost.similarity post))
                       similarPosts) in
      Some (clusters ++ [cluster],
            fold_left (fun p post => add p (SimilarPost.index post)) similarPosts
                      (add processed index))
    else Some st.

(** [array.forEach] with a callback that updates a state and may raise. *)
Fixpoint foldM {A S : Type} (f : S -> A -> option S) (l : list A) (s : S) : option S :=
  match l with
  | [] => Some s
  | a :: l' => s' <- f s a ;; foldM f l' s'
  end.

(** [identifySemanticClusters(rows)] *)
Definition identifySemanticClusters (rows : list EnhancedExcelRow)
    : option (list SemanticCluster) :=
  st <- foldM (clusterStep rows) (indexed rows) ([], []) ;;
  Some (fst st).

(** [findRelatedPublishedPosts(currentRow, allRows)]; [row !== currentRow]
    compares the two objects, not their contents. *)
Definition findRelatedPublishedPosts (currentRow : EnhancedExcelRow)
    (allRows : list EnhancedExcelRow) : option (list string) :=
  let others :=
    filter (fun row => JS.truthy (published_url row) && negb (ref row =? ref currentRow))
           allRows in
  related <- filterM (fun row =>
               similarity <- calculateSimilarity
                               (mkPost (B currentRow) (C currentRow) (D currentRow))
                               (mkPost (B row) (C row) (D row)) ;;
               Some (0.2 <? similarity)%float)
             others ;;
  Some (map (fun row => JS.orEmpty (published_url row)) (firstn 3 related)).

(** [identifyInternalLinkOpportunities(rows)] *)
Definition identifyInternalLinkOpportunities (rows : list EnhancedExcelRow)
    : option (list InternalLinkOpportunity) :=
  mapM (fun '(index, row) =>
          links <- findRelatedPublishedPosts row rows ;;
          Some (mkOpportunity index (JS.orEmpty (B row)) (JS.orEmpty (published_url row)) links))
       (indexed (filter (fun row => JS.truthy (published_url row)) rows)).

(** [distribution[pillar] = (distribution[pillar] || 0) + 1] *)
Fixpoint increment (distribution : Distribution) (pillar : string) : Distribution :=
  match distribution with
  | [] => [(pillar, 0 + 1)]
  | (k, n) :: rest =>
      if String.eqb k pillar then (k, n + 1) :: rest
      else (k, n) :: increment rest pillar
  end.

(** [analyzePillarDistribution(rows)] *)
Definition analyzePillarDistribution (rows : list EnhancedExcelRow) : Distribution :=
  fold_left (fun distribution row =>
               let pillar := JS.orElse (D row) "Unknown" in
               increment distribution pillar)
            rows [].

(** [identifyContentGaps(rows)] *)
Definition identifyContentGaps (rows : list EnhancedExcelRow) : list ContentGap :=
  let pillarCounts := analyzePillarDistribution rows in
  let totalPosts := List.length rows in
  filter (fun g => (0 <? gap g)%float)
    (map (fun '(pillar, count) =>
            mkGap pillar count
                  (JS.Math_ceil (JS.num totalPosts * 0.2))
                  (JS.Math_max 0 (JS.Math_ceil (JS.num totalPosts * 0.2) - JS.num count)))
         pillarCounts).

(** [analyzeContentHolistically(rows)] *)
Definition analyzeContentHolistically (rows : list EnhancedExcelRow)
    : option ContentAnalysisResult :=
  let distribution := analyzePillarDistribution rows in
  clusters <- identifySemanticClusters rows ;;
  opportunities <- identifyInternalLinkOpportunities rows ;;
  Some (mkResult (List.length rows)
                 (List.length (filter (fun row => JS.truthy (published_url row)) rows))
                 distribution clusters opportunities (identifyContentGaps rows)).

(** [getColumnLetter(columnNumber)]: the [while] loop, run for at most
    [fuel] rounds. Column numbers are integers, so [%], [/] and
    [Math.floor] are exact. *)
Fixpoint getColumnLetterLoop (fuel : nat) (columnNumber : Z) (columnLetter : string)
    : string :=
  match fuel with
  | O => columnLetter
  | S fuel' =>
      if (0 <=? columnNumber)%Z
      then getColumnLetterLoop fuel' (columnNumber / 26 - 1)%Z
             (String (JS.fromCharCode (65 + columnNumber mod 26)) columnLetter)
      else columnLetter
  end.

(** The loop divides the column number by 26 in each round, so
    [columnNumber + 1] rounds are enough. *)
Definition getColumnLetter (columnNumber : Z) : string :=
  getColumnLetterLoop (Z.to_nat (columnNumber + 1)) columnNumber "".

(** A cell value of a sheet read with [header: 1]. *)
Inductive Cell : Type :=
| CellString (s : string)
| CellNumber (x : float)
| CellBoolean (b : bool).

(** A row of the sheet: an array that may have empty slots. *)
Definition SheetRow := list (option Cell).

(** What a call returns or throws. *)
Inductive Outcome (A : Type) : Type :=
| Returned (a : A)
| ThrownError (message : string)
| ThrownTypeError.

Arguments Returned {A} a.
Arguments ThrownError {A} message.
Arguments ThrownTypeError {A}.

(** The view of a parsed object as an [EnhancedExcelRow]: the properties
    the analysis reads. The object is the [position]-th one created. *)
Definition asRow (position : nat) (rowData : JS.Object) : EnhancedExcelRow :=
  mkRow position (JS.getProp rowData "B") (JS.getProp rowData "C")
        (JS.getProp rowData "D") (JS.getProp rowData "published_url").

Section Parsing.

(** [String(x)] for a number [x], a built-in of the language. *)
Variable numberToString : float -> string.

(** The truthiness of a cell value. *)
Definition cellTruthy (c : Cell) : bool :=
  match c with
  | CellString s => negb (String.eqb s "")
  | CellNumber x => negb (PrimFloat.is_zero x || PrimFloat.is_nan x)
  | CellBoolean b => b
  end.

(** [String(value)] *)
Definition cellString (c : Cell) : string :=
  match c with
  | CellString s => s
  | CellNumber x => numberToString x
  | CellBoolean b => if b then "true" else "false"
  end.

(** [row[index]] *)
Definition cellAt (row : SheetRow) (index : nat) : option Cell :=
  match nth_error row index with
  | Some (Some c) => Some c
  | _ => None
  end.

(** [value ? String(value) : ''] *)
Definition cellText (value : option Cell) : string :=
  match value with
  | Some c => if cellTruthy c then cellString c else ""
  | None => ""
  end.

(** The object built for one data row; [headers.forEach] skips the empty
    slots of the header row. *)
Definition buildRowData (headers row : SheetRow) : JS.Object :=
  fold_left (fun rowData ih =>
               match ih with
               | (index, Some header) =>
                   JS.setProp rowData (getColumnLetter (Z.of_nat index))
                              (cellText (cellAt row index))
               | (index, None) => rowData
               end)
            (indexed headers) [].

(** [parseFileWithAnalysis(file)] from the first sheet of the workbook
    on; the sheet stands for the array [sheet_to_json] returns for it. *)
Definition parseFileWithAnalysis (firstSheet : option (list SheetRow))
    : Outcome (list JS.Object * ContentAnalysisResult) :=
  match firstSheet with
  | None => ThrownError "No sheets found in the Excel file"
  | Some data =>
      if List.length data <? 2
      then ThrownError "Excel file must have at least a header row and one data row"
      else
        let headers := hd [] data in
        let rows := map (buildRowData headers) (tl data) in
        match analyzeContentHolistically (map (fun ir => asRow (fst ir) (snd ir)) (indexed rows)) with
        | Some fullAnalysis => Returned (rows, fullAnalysis)
        | None => ThrownTypeError
        end
  end.

End Parsing.

(** ** EnhancedPromptTabs: the similar posts of the current row *)

Module PromptTabs.

Record SimilarPost := mkSimilarPost {
  index : nat;
  title : string;
  similarity : float;
  pillar : string;
  isPublished : bool;
  url : option string
}.

(** [findSimilarPosts(currentPost, allData, currentIndex)]; the component's
    [calculateSimilarity] is the parser's, copied. *)
Definition findSimilarPosts (currentPost : EnhancedExcelRow)
    (allData : list EnhancedExcelRow) (currentIndex : nat) : option (list SimilarPost) :=
  let currentTitle := JS.orEmpty (B currentPost) in
  let currentKeywords := JS.orEmpty (C currentPost) in
  let currentPillar := JS.orEmpty (D currentPost) in
  posts <- mapM (fun '(index, row) =>
             if index =? currentIndex then Some None
             else
               similarity <- calculateSimilarity
                               (mkPost (Some currentTitle) (Some currentKeywords)
                                       (Some currentPillar))
                               (mkPost (Some (JS.orEmpty (B row)))
                                       (Some (JS.orEmpty (C row)))
                                       (Some (JS.orEmpty (D row)))) ;;
               Some (if (0.3 <? similarity)%float
                     then Some (mkSimilarPost index (JS.orEmpty (B row)) similarity
                                  (JS.orEmpty (D row)) (JS.truthy (published_url row))
                                  (published_url row))
                     else None))
           (indexed allData) ;;
  Some (firstn 5 (JS.sort (fun a b => (similarity b - similarity a)%float) (nonNull posts))).

(** [checkSemanticSimilarity(currentPost, similarPosts)]: the warnings it
    hands to [setSemanticWarnings]. *)
Definition checkSemanticSimilarity (currentPost : EnhancedExcelRow)
    (similarPosts : list SimilarPost) : list string :=
  let highSimilarity := filter (fun p => (0.7 <? similarity p)%float) similarPosts in
  let warnings1 :=
    if 0 <? List.length highSimilarity
    then [("High semantic similarity detected with "
           ++ JS.decimal (List.length highSimilarity)
           ++ " post(s). Consider differentiating approach.")%string]
    else [] in
  let publishedSimilar :=
    filter (fun p => isPublished p && (0.5 <? similarity p)%float) similarPosts in
  if 0 <? List.length publishedSimilar
  then warnings1
       ++ ["Similar published content exists. Ensure unique angle to avoid content cannibalization."]
  else warnings1.

End PromptTabs.

(** ** Vocabulary of the properties *)

Module Binary64.

(** A value that is neither NaN nor negative; infinity is allowed. *)
Definition nonneg (x : spec_float) : Prop :=
  match x with
  | S754_nan => False
  | S754_zero _ => True
  | S754_infinity s => s = false
  | S754_finite s _ _ => s = false
  end.

(** A finite value above zero. *)
Definition positive_finite (x : spec_float) : Prop :=
  match x with
  | S754_finite s _ _ => s = false
  | _ => False
  end.

(** Zero or a finite value above zero. *)
Definition finite_nonneg (x : spec_float) : Prop :=
  match x with
  | S754_zero _ => True
  | S754_finite s _ _ => s = false
  | _ => False
  end.

End Binary64.

(** A string short enough for its pieces to fit an [Array], whose length
    stays below 2^32. *)
Definition fitsArray (s : string) : Prop :=
  (Z.of_nat (String.length s) < 2 ^ 32 - 1)%Z.

(** The words of a title, as [calculateTextSimilarity] splits them. *)
Definition titleWords (text : string) : list string :=
  JS.split " " (JS.toLowerCase text).

(** The value of the local [keywordSimilarity] of [calculateSimilarity]. *)
Definition keywordSimilarity (k1 k2 : string) : float :=
  let keywords1 := keywordTokens k1 in
  let keywords2 := keywordTokens k2 in
  let sharedKeywords := filter (fun k => JS.includes keywords2 k) keywords1 in
  (JS.num (List.length sharedKeywords)
   / JS.Math_max (JS.num (List.length keywords1)) (JS.num (List.length keywords2)))%float.

(** The value [calculateTextSimilarity] returns on two strings. *)
Definition textSimilarity (t1 t2 : string) : float :=
  let words1 := titleWords t1 in
  let words2 := titleWords t2 in
  let sharedWords := filter (fun word => JS.includes words2 word) words1 in
  (JS.num (List.length sharedWords)
   / JS.Math_max (JS.num (List.length words1)) (JS.num (List.length words2)))%float.

(** The value of the local [pillarMatch]. *)
Definition pillarMatch (p1 p2 : option string) : float :=
  if JS.strictEquals p1 p2 then 0.3%float else 0%float.

(** The score of two rows as [identifySemanticClusters] computes it. *)
Definition score (a b : EnhancedExcelRow) : float :=
  match calculateSimilarity (postOf a) (postOf b) with
  | Some s => s
  | None => nan
  end.

(** The row indices a cluster holds: its anchor, then its members. *)
Definition clusterIndices (c : SemanticCluster) : list nat :=
  MainPost.index (mainPost c) :: map SimilarPost.index (relatedPosts c).

(** The rows a cluster holds. *)
Definition clusterRows (c : SemanticCluster) : list EnhancedExcelRow :=
  MainPost.row (mainPost c) :: map SimilarPost.row (relatedPosts c).

(** Two rows are grouped together when some cluster holds both. *)
Definition together (cs : list SemanticCluster) (a b : EnhancedExcelRow) : Prop :=
  exists c, In c cs /\ In a (clusterRows c) /\ In b (clusterRows c).

(** The state of the scan when the callback reaches index [i]. *)
Definition stateBefore (rows : list EnhancedExcelRow) (i : nat)
    : option (list SemanticCluster * IndexSet) :=
  foldM (clusterStep rows) (firstn i (indexed rows)) ([], []).

(** What the [map] callback of [similarPostsOf] yields for one row once
    the score is known: the post, or [null]. *)
Definition candidate (processed : IndexSet) (index : nat) (row : EnhancedExcelRow)
    (ir : nat * EnhancedExcelRow) : option SimilarPost.t :=
  let '(otherIndex, otherRow) := ir in
  if (index =? otherIndex) || has processed otherIndex then None
  else if (0.3 <? score row otherRow)%float
       then Some (SimilarPost.mk otherIndex (score row otherRow) otherRow)
       else None.

(** A member of a cluster anchored at [index], [row]: another row of the
    list, carrying its score against the anchor, which exceeds 0.3. *)
Definition memberOK (rows : list EnhancedExcelRow) (index : nat) (row : EnhancedExcelRow)
    (p : SimilarPost.t) : Prop :=
  SimilarPost.index p <> index
  /\ nth_error rows (SimilarPost.index p) = Some (SimilarPost.row p)
  /\ SimilarPost.similarity p = score row (SimilarPost.row p)
  /\ (0.3 <? SimilarPost.similarity p)%float = true.

(** A cluster as the scan builds it over [rows]. *)
Definition clusterOK (rows : list EnhancedExcelRow) (c : SemanticCluster) : Prop :=
  nth_error rows (MainPost.index (mainPost c)) = Some (MainPost.row (mainPost c))
  /\ relatedPosts c <> []
  /\ StronglySorted lt (map SimilarPost.index (relatedPosts c))
  /\ Forall (memberOK rows (MainPost.index (mainPost c)) (MainPost.row (mainPost c)))
            (relatedPosts c).

(** The invariant of the scan: clusters are well formed, their indices are
    all marked processed, and no index occurs twice. *)
Definition scanInvariant (rows : list EnhancedExcelRow)
    (st : list SemanticCluster * IndexSet) : Prop :=
  Forall (clusterOK rows) (fst st)
  /\ (forall c i, In c (fst st) -> In i (clusterIndices c) -> has (snd st) i = true)
  /\ NoDup (flat_map clusterIndices (fst st)).

(** The object literal [{ title: row.B, keywords: row.C, pillar: row.D }]
    of [findRelatedPublishedPosts]. *)
Definition rawPost (row : EnhancedExcelRow) : Post := mkPost (B row) (C row) (D row).

(** [row] scores above 0.2 against [currentRow]. *)
Definition linkable (currentRow row : EnhancedExcelRow) : bool :=
  match calculateSimilarity (rawPost currentRow) (rawPost row) with
  | Some s => (0.2 <? s)%float
  | None => false
  end.

(** The rows [findRelatedPublishedPosts] considers for [currentRow]:
    published, and not the object [currentRow] itself. *)
Definition otherPublished (currentRow : EnhancedExcelRow)
    (allRows : list EnhancedExcelRow) : list EnhancedExcelRow :=
  filter (fun row => JS.truthy (published_url row) && negb (ref row =? ref currentRow))
         allRows.

(** The characters of [s] all satisfy [p]. *)
Fixpoint allChars (p : ascii -> bool) (s : string) : bool :=
  match s with
  | EmptyString => true
  | String c s' => p c && allChars p s'
  end.

(** An upper-case letter A-Z. *)
Definition isUpperLetter (c : ascii) : bool :=
  (65 <=? nat_of_ascii c) && (nat_of_ascii c <=? 90).

(** The number a column name stands for when A-Z are read as the digits
    1-26 in base 26. *)
Fixpoint columnValue (s : string) : Z :=
  match s with
  | EmptyString => 0
  | String c s' =>
      (Z.of_nat (nat_of_ascii c) - 64) * 26 ^ Z.of_nat (String.length s') + columnValue s'
  end.

(** [sub] occurs somewhere in [s]. *)
Definition occursIn (sub s : string) : Prop :=
  exists a b : string, s = (a ++ sub ++ b)%string.

(** The label [row.D || 'Unknown'] under which a row is counted. *)
Definition pillarOf (row : EnhancedExcelRow) : string := JS.orElse (D row) "Unknown".

(** [distribution[label]], 0 when the label is missing. *)
Fixpoint countOf (distribution : Distribution) (label : string) : nat :=
  match distribution with
  | [] => 0
  | (k, n) :: rest => if String.eqb k label then n else countOf rest label
  end.

(** The sum of the counts of a distribution. *)
Fixpoint totalCount (distribution : Distribution) : nat :=
  match distribution with
  | [] => 0
  | (_, n) :: rest => n + totalCount rest
  end.

(** The number of rows counted under [label]. *)
Definition rowsWith (label : string) (rows : list EnhancedExcelRow) : nat :=
  List.length (filter (fun row => String.eqb (pillarOf row) label) rows).

(** The metadata the scan gives the cluster it creates at position [k] of
    the result: its id, its theme, and one link per member. *)
Definition clusterShape (k : nat) (c : SemanticCluster) : Prop :=
  id c = ("cluster-" ++ JS.decimal k)%string
  /\ theme c = extractTheme (JS.orEmpty (B (MainPost.row (mainPost c))))
                            (JS.orEmpty (C (MainPost.row (mainPost c))))
  /\ internalLinkOpportunities c
     = map (fun post =>
              ClusterLink.mk (MainPost.index (mainPost c)) (SimilarPost.index post)
                (generateAnchorText (JS.orEmpty (B (SimilarPost.row post))))
                (SimilarPost.similarity post))
           (relatedPosts c).

(** A second invariant of the scan: the shape of each cluster, and the
    processed indices being indices of clusters. *)
Definition scanShape (st : list SemanticCluster * IndexSet) : Prop :=
  (forall k c, nth_error (fst st) k = Some c -> clusterShape k c)
  /\ (forall i, has (snd st) i = true ->
                exists c, In c (fst st) /\ In i (clusterIndices c)).

(** A later state of the scan keeps the clusters and the processed indices
    of an earlier one. *)
Definition extends (st st' : list SemanticCluster * IndexSet) : Prop :=
  (exists more, fst st' = fst st ++ more)
  /\ (forall i, has (snd st) i = true -> has (snd st') i = true).

(** ** Example inputs *)

Module Examples.

(** The three rows of the end-to-end example of the specification. *)
Definition Row1 : EnhancedExcelRow :=
  mkRow 0 (Some "Hudson Valley Wine Tasting Guide")
        (Some "wine tasting, hudson valley, vineyard tours")
        (Some "Wine Education") (Some "https://example.com/p1").

Definition Row2 : EnhancedExcelRow :=
  mkRow 1 (Some "Wine Tasting Techniques for Beginners")
        (Some "wine tasting, beginner guide, techniques")
        (Some "Wine Education") None.

Definition Row3 : EnhancedExcelRow :=
  mkRow 2 (Some "Sustainable Wedding Venues in Hudson Valley")
        (Some "sustainable weddings, eco venue, hudson valley")
        (Some "Events & Experiences") None.

(** A row that repeats a keyword, and one that lists it once. *)
Definition Repeating : EnhancedExcelRow :=
  mkRow 10 (Some "Harvest") (Some "wine, wine, wine, grapes") (Some "Wine Education") None.

Definition Single : EnhancedExcelRow :=
  mkRow 11 (Some "Cellar") (Some "wine, oak, barrels, cork") (Some "Winemaking") None.

(** An anchor, a loosely related row and a copy of the anchor's text. *)
Definition Anchor : EnhancedExcelRow :=
  mkRow 20 (Some "Harvest") (Some "wine, grapes") (Some "Wine Education") None.

Definition Loose : EnhancedExcelRow :=
  mkRow 21 (Some "Harvest Festival") (Some "events") (Some "Wine Education") None.

Definition Close : EnhancedExcelRow :=
  mkRow 22 (Some "Harvest") (Some "wine, grapes") (Some "Wine Education") None.

(** A chain: [Tours] and [Weddings] are similar, [Weddings] and [Barrels]
    are similar, [Tours] and [Barrels] are not. *)
Definition Tours : EnhancedExcelRow :=
  mkRow 30 (Some "Vineyard Tours") (Some "tours") (Some "Visit") None.

Definition Weddings : EnhancedExcelRow :=
  mkRow 31 (Some "Vineyard Weddings") (Some "weddings") (Some "Visit") None.

Definition Barrels : EnhancedExcelRow :=
  mkRow 32 (Some "Barrel Weddings") (Some "weddings") (Some "Events") None.

(** Two published rows that carry the same URL, and an unpublished one. *)
Definition Guide : EnhancedExcelRow :=
  mkRow 40 (Some "Tasting Guide") (Some "tasting") (Some "Wine Education")
        (Some "https://example.com/guide").

Definition GuideAgain : EnhancedExcelRow :=
  mkRow 41 (Some "Tasting Guide Updated") (Some "tasting") (Some "Wine Education")
        (Some "https://example.com/guide").

Definition Draft : EnhancedExcelRow :=
  mkRow 42 (Some "Pruning Notes") (Some "pruning") (Some "Viticulture") None.

(** A published row of a sheet that has no keywords column. *)
Definition Bare : EnhancedExcelRow :=
  mkRow 43 (Some "Cellar Door Hours") None None (Some "https://example.com/hours").

End Examples.

(** * Properties *)

(** ** Binary64 arithmetic: signs, comparison and small integers *)

Module Binary64Facts.

Lemma iter_pos_invariant {A : Type} (P : A -> Prop) (f : A -> A) :
  (forall a, P a -> P (f a)) -> forall n a, P a -> P (iter_pos f n a).
Proof.
  intros Hf. induction n as [n IH | n IH |]; intros a Ha; simpl; auto.
Qed.

Lemma shr_1_nonneg mrs : (0 <= shr_m mrs)%Z -> (0 <= shr_m (shr_1 mrs))%Z.
Proof.
  destruct mrs as [m r s]. simpl.
  destruct m as [| p | p]; simpl; try lia; destruct p; simpl; lia.
Qed.

Lemma shr_nonneg mrs e n : (0 <= shr_m mrs)%Z -> (0 <= shr_m (fst (shr mrs e n)))%Z.
Proof.
  intros H. destruct n as [| p | p]; simpl; auto.
  apply (iter_pos_invariant (fun x => (0 <= shr_m x)%Z)); auto using shr_1_nonneg.
Qed.

Lemma shr_record_of_loc_m m l : shr_m (shr_record_of_loc m l) = m.
Proof. destruct l as [| []]; reflexivity. Qed.

Lemma shr_fexp_nonneg prec emax m e l :
  (0 <= m)%Z -> (0 <= shr_m (fst (shr_fexp prec emax m e l)))%Z.
Proof.
  intros H. unfold shr_fexp. apply shr_nonneg. now rewrite shr_record_of_loc_m.
Qed.

Lemma round_nearest_even_nonneg m l : (0 <= m)%Z -> (0 <= round_nearest_even m l)%Z.
Proof.
  intros H. destruct l as [| []]; simpl; try lia. destruct (Z.even m); lia.
Qed.

(** Rounding keeps the sign: a non-negative mantissa never rounds to NaN
    or to a negative value. *)
Lemma binary_round_aux_nonneg prec emax m e l :
  (0 <= m)%Z -> Binary64.nonneg (binary_round_aux prec emax false m e l).
Proof.
  intros H. unfold binary_round_aux.
  pose proof (shr_fexp_nonneg prec emax m e l H) as H1.
  destruct (shr_fexp prec emax m e l) as [mrs' e']. simpl in H1.
  pose proof (shr_fexp_nonneg prec emax _ e' loc_Exact
                (round_nearest_even_nonneg _ (loc_of_shr_record mrs') H1)) as H2.
  destruct (shr_fexp prec emax _ e' loc_Exact) as [mrs'' e'']. simpl in H2.
  destruct (shr_m mrs'') as [| p | p]; simpl; auto; try lia.
  destruct (e'' <=? emax - prec)%Z; simpl; auto.
Qed.

Lemma binary_round_nonneg prec emax m e : Binary64.nonneg (binary_round prec emax false m e).
Proof.
  unfold binary_round. destruct (shl_align _ _ _) as [mz ez].
  apply binary_round_aux_nonneg. lia.
Qed.

Lemma SFmul_nonneg prec emax x y :
  Binary64.nonneg x -> Binary64.positive_finite y -> Binary64.nonneg (SFmul prec emax x y).
Proof.
  destruct x as [sx | sx | | sx mx ex], y as [sy | sy | | sy my ey]; simpl;
    try tauto; intros Hx Hy; subst; simpl; auto.
  apply binary_round_aux_nonneg. lia.
Qed.

Lemma SFadd_nonneg prec emax x y :
  Binary64.nonneg x -> Binary64.nonneg y -> Binary64.nonneg (SFadd prec emax x y).
Proof.
  destruct x as [sx | sx | | sx mx ex], y as [sy | sy | | sy my ey]; simpl;
    try tauto; intros Hx Hy; subst; simpl; auto.
  - destruct sx, sy; simpl; auto.
  - unfold binary_normalize.
    destruct (shl_align mx ex (Z.min ex ey)) as [a ?], (shl_align my ey (Z.min ex ey)) as [b ?].
    simpl. apply binary_round_nonneg.
Qed.

Lemma SFdiv_nonneg prec emax x y :
  Binary64.finite_nonneg x -> Binary64.positive_finite y -> Binary64.nonneg (SFdiv prec emax x y).
Proof.
  destruct x as [sx | sx | | sx mx ex], y as [sy | sy | | sy my ey]; simpl;
    try tauto; intros Hx Hy; subst; simpl; auto.
  unfold SFdiv_core_binary.
  set (m' := match _ with Z0 => Z.pos mx | Zpos _ => _ | Zneg _ => 0%Z end).
  assert (0 <= m')%Z as Hm.
  { subst m'. destruct (_ - _)%Z; try lia. apply Z.shiftl_nonneg. lia. }
  pose proof (Z.div_pos m' (Z.pos my) Hm ltac:(lia)) as Hq.
  unfold Z.div in Hq. destruct (Z.div_eucl m' (Z.pos my)) as [q r].
  now apply binary_round_aux_nonneg.
Qed.

(** *** Comparison *)

Lemma SFcompare_antisym x y :
  SFcompare y x = option_map CompOpp (SFcompare x y).
Proof.
  destruct x as [sx | sx | | sx mx ex], y as [sy | sy | | sy my ey]; simpl;
    try reflexivity;
    try (destruct sx; reflexivity); try (destruct sy; reflexivity);
    try (destruct sx, sy; reflexivity).
  destruct sx, sy; simpl; try reflexivity;
    rewrite (Z.compare_antisym ex ey); destruct (ex ?= ey)%Z; simpl; try reflexivity;
    rewrite (ZC4 my mx); destruct (Pos.compare_cont Eq mx my); reflexivity.
Qed.

Lemma SFcompare_refl x : x <> S754_nan -> SFcompare x x = Some Eq.
Proof.
  destruct x as [s | s | | s m e]; simpl; intros H; try congruence.
  - destruct s; reflexivity.
  - rewrite Z.compare_refl. destruct s; simpl; try reflexivity;
      fold (Pos.compare m m); rewrite Pos.compare_refl; reflexivity.
Qed.

Lemma leb_not_gtb (x y : float) : (x <=? y)%float = true -> (y <? x)%float = false.
Proof.
  rewrite FloatAxioms.leb_spec, FloatAxioms.ltb_spec. unfold SFleb, SFltb.
  rewrite (SFcompare_antisym (Prim2SF x) (Prim2SF y)).
  destruct (SFcompare (Prim2SF x) (Prim2SF y)) as [[] |]; simpl; congruence.
Qed.

Lemma ltb_leb (x y : float) : (x <? y)%float = true -> (x <=? y)%float = true.
Proof.
  rewrite FloatAxioms.leb_spec, FloatAxioms.ltb_spec. unfold SFleb, SFltb.
  destruct (SFcompare (Prim2SF x) (Prim2SF y)) as [[] |]; simpl; congruence.
Qed.

Lemma nonneg_not_nan (x : float) : Binary64.nonneg (Prim2SF x) -> is_nan x = false.
Proof.
  intros H. unfold is_nan. rewrite FloatAxioms.eqb_spec. unfold SFeqb.
  rewrite SFcompare_refl; [reflexivity |].
  intros E. rewrite E in H. exact H.
Qed.

Lemma nonneg_zero_leb (x : float) : Binary64.nonneg (Prim2SF x) -> (0 <=? x)%float = true.
Proof.
  intros H. rewrite FloatAxioms.leb_spec. change (Prim2SF 0) with (S754_zero false).
  destruct (Prim2SF x) as [s | s | | s m e]; simpl in *; subst; tauto || reflexivity.
Qed.

(** *** Array lengths as numbers *)

Lemma digits2_pos_lower p : (2 ^ (Z.pos (digits2_pos p) - 1) <= Z.pos p)%Z.
Proof.
  induction p as [p IH | p IH |]; simpl digits2_pos.
  - rewrite Pos2Z.inj_succ. replace (Z.succ (Z.pos (digits2_pos p)) - 1)%Z
      with (Z.succ (Z.pos (digits2_pos p) - 1))%Z by lia.
    rewrite Z.pow_succ_r by lia. lia.
  - rewrite Pos2Z.inj_succ. replace (Z.succ (Z.pos (digits2_pos p)) - 1)%Z
      with (Z.succ (Z.pos (digits2_pos p) - 1))%Z by lia.
    rewrite Z.pow_succ_r by lia. lia.
  - simpl. lia.
Qed.

Lemma digits2_pos_iter_xO p k :
  digits2_pos (Pos.iter xO p k) = (digits2_pos p + k)%positive.
Proof.
  induction k as [| k IH] using Pos.peano_ind.
  - simpl. lia.
  - rewrite Pos.iter_succ. simpl. rewrite IH. lia.
Qed.

Lemma binary_round_aux_canonical s m e :
  canonical_mantissa prec emax m e = true -> (e <= emax - prec)%Z ->
  binary_round_aux prec emax s (Z.pos m) e loc_Exact = S754_finite s m e.
Proof.
  unfold canonical_mantissa. intros Hc He. apply Z.eqb_eq in Hc.
  unfold binary_round_aux, shr_fexp. cbn [Zdigits2]. rewrite Hc, Z.sub_diag.
  cbn [shr shr_record_of_loc shr_m loc_of_shr_record round_nearest_even Zdigits2].
  rewrite Hc, Z.sub_diag. cbn [shr shr_record_of_loc shr_m].
  apply Z.leb_le in He. now rewrite He.
Qed.

(** An integer below 2^53 is a binary64 value: finite and above zero. *)
Lemma binary_normalize_small p :
  (Z.pos p < 2 ^ 53)%Z ->
  Binary64.positive_finite (binary_normalize prec emax (Z.pos p) 0 false).
Proof.
  intros Hp. simpl binary_normalize. unfold binary_round.
  pose proof (digits2_pos_lower p) as Hd.
  assert (Z.pos (digits2_pos p) <= 53)%Z as Hd53.
  { destruct (Z.le_gt_cases (Z.pos (digits2_pos p)) 53) as [H | H]; auto.
    assert (2 ^ 53 <= 2 ^ (Z.pos (digits2_pos p) - 1))%Z by (apply Z.pow_le_mono_r; lia).
    lia. }
  assert (fexp prec emax (Z.pos (digits2_pos p) + 0) = Z.pos (digits2_pos p) - 53)%Z as Hf.
  { unfold fexp, emin, prec, emax. lia. }
  rewrite Hf. unfold shl_align.
  destruct (Z.pos (digits2_pos p) - 53 - 0)%Z as [| d | d] eqn:Hs; try lia.
  - rewrite binary_round_aux_canonical; [reflexivity | | unfold emax, prec; lia].
    unfold canonical_mantissa. apply Z.eqb_eq. rewrite Hf. lia.
  - rewrite binary_round_aux_canonical; [reflexivity | | unfold emax, prec; lia].
    unfold canonical_mantissa. apply Z.eqb_eq. rewrite digits2_pos_iter_xO.
    unfold fexp, emin, prec, emax. lia.
Qed.

End Binary64Facts.

(** ** Strings and arrays *)

Lemma toLowerCase_length s : String.length (JS.toLowerCase s) = String.length s.
Proof. induction s as [| c s IH]; simpl; congruence. Qed.

Lemma split_nonempty sep s : 1 <= List.length (JS.split sep s).
Proof.
  destruct s as [| c s]; simpl; [lia |].
  destruct (Ascii.eqb c sep); simpl; [lia |].
  destruct (JS.split sep s); simpl; lia.
Qed.

Lemma split_length_le sep s : List.length (JS.split sep s) <= S (String.length s).
Proof.
  induction s as [| c s IH]; simpl; [lia |].
  destruct (Ascii.eqb c sep); simpl; [lia |].
  destruct (JS.split sep s); simpl in *; lia.
Qed.

Lemma keywordTokens_length raw :
  1 <= List.length (keywordTokens raw) <= S (String.length raw).
Proof.
  unfold keywordTokens. rewrite length_map. split.
  - apply split_nonempty.
  - rewrite <- (toLowerCase_length raw). apply split_length_le.
Qed.

Lemma titleWords_length text :
  1 <= List.length (titleWords text) <= S (String.length text).
Proof.
  unfold titleWords. split.
  - apply split_nonempty.
  - rewrite <- (toLowerCase_length text). apply split_length_le.
Qed.

(** ** Numbers of array lengths *)

Lemma num_small_spec n :
  (Z.of_nat n < 2 ^ 53)%Z ->
  Prim2SF (JS.num n) = binary_normalize prec emax (Z.of_nat n) 0 false.
Proof.
  intros H. unfold JS.num. rewrite FloatAxioms.of_uint63_spec, Uint63.of_Z_spec.
  rewrite Z.mod_small; [reflexivity |].
  split; [lia |]. apply Z.lt_trans with (1 := H). reflexivity.
Qed.

Lemma num_finite_nonneg n :
  (Z.of_nat n < 2 ^ 53)%Z -> Binary64.finite_nonneg (Prim2SF (JS.num n)).
Proof.
  intros H. rewrite num_small_spec by exact H.
  destruct n as [| n]; [exact I |].
  pose proof (Binary64Facts.binary_normalize_small (Pos.of_succ_nat n)) as Hp.
  rewrite Zpos_P_of_succ_nat, <- Nat2Z.inj_succ in Hp. specialize (Hp H).
  destruct (binary_normalize _ _ _ _ _); simpl in *; tauto.
Qed.

Lemma num_positive_finite n :
  0 < n -> (Z.of_nat n < 2 ^ 53)%Z -> Binary64.positive_finite (Prim2SF (JS.num n)).
Proof.
  intros Hn H. rewrite num_small_spec by exact H.
  destruct n as [| n]; [lia |].
  pose proof (Binary64Facts.binary_normalize_small (Pos.of_succ_nat n)) as Hp.
  rewrite Zpos_P_of_succ_nat, <- Nat2Z.inj_succ in Hp. exact (Hp H).
Qed.

(** [Math.max] of two array lengths, one of which is not zero, is finite
    and above zero. *)
Lemma Math_max_lengths_positive a b :
  (Z.of_nat a < 2 ^ 53)%Z -> (Z.of_nat b < 2 ^ 53)%Z -> 1 <= Nat.max a b ->
  Binary64.positive_finite (Prim2SF (JS.Math_max (JS.num a) (JS.num b))).
Proof.
  intros Ha Hb Hmax.
  pose proof (num_finite_nonneg a Ha) as Fa. pose proof (num_finite_nonneg b Hb) as Fb.
  assert (is_nan (JS.num a) = false) as Na.
  { apply Binary64Facts.nonneg_not_nan. destruct (Prim2SF (JS.num a)); simpl in *; tauto. }
  assert (is_nan (JS.num b) = false) as Nb.
  { apply Binary64Facts.nonneg_not_nan. destruct (Prim2SF (JS.num b)); simpl in *; tauto. }
  assert (a = 0 \/ Binary64.positive_finite (Prim2SF (JS.num a))) as Pa.
  { destruct a; [now left | right; apply num_positive_finite; lia]. }
  assert (b = 0 \/ Binary64.positive_finite (Prim2SF (JS.num b))) as Pb.
  { destruct b; [now left | right; apply num_positive_finite; lia]. }
  unfold JS.Math_max. rewrite Na, Nb. cbn [orb].
  rewrite !FloatAxioms.ltb_spec.
  destruct Pa as [-> | Pa], Pb as [-> | Pb]; [simpl in Hmax; lia | | |].
  - change (Prim2SF (JS.num 0)) with (S754_zero false).
    destruct (Prim2SF (JS.num b)) as [| | | s m e] eqn:E; simpl in Pb; try tauto.
    subst s. simpl. now rewrite E.
  - change (Prim2SF (JS.num 0)) with (S754_zero false).
    destruct (Prim2SF (JS.num a)) as [| | | s m e] eqn:E; simpl in Pa; try tauto.
    subst s. simpl. now rewrite E.
  - destruct (SFltb (Prim2SF (JS.num a)) (Prim2SF (JS.num b))); [exact Pb |].
    destruct (SFltb (Prim2SF (JS.num b)) (Prim2SF (JS.num a))); [exact Pa |].
    destruct (get_sign (JS.num a)); assumption.
Qed.

(** A count of shared tokens divided by the larger of two array lengths is
    a number that is neither NaN nor negative. *)
Lemma ratio_nonneg s a b :
  (Z.of_nat s < 2 ^ 53)%Z -> (Z.of_nat a < 2 ^ 53)%Z -> (Z.of_nat b < 2 ^ 53)%Z ->
  1 <= Nat.max a b ->
  Binary64.nonneg (Prim2SF (JS.num s / JS.Math_max (JS.num a) (JS.num b))).
Proof.
  intros Hs Ha Hb Hmax. rewrite FloatAxioms.div_spec. apply Binary64Facts.SFdiv_nonneg.
  - now apply num_finite_nonneg.
  - now apply Math_max_lengths_positive.
Qed.

Lemma positive_finite_above_zero x :
  Binary64.positive_finite (Prim2SF x) -> (0 <? x)%float = true.
Proof.
  intros H. rewrite FloatAxioms.ltb_spec. change (Prim2SF 0) with (S754_zero false).
  destruct (Prim2SF x) as [| | | s m e]; simpl in H; try tauto. now subst s.
Qed.

Lemma keywordSimilarity_nonneg k1 k2 :
  fitsArray k1 -> fitsArray k2 -> Binary64.nonneg (Prim2SF (keywordSimilarity k1 k2)).
Proof.
  unfold fitsArray, keywordSimilarity. intros H1 H2.
  pose proof (keywordTokens_length k1) as L1. pose proof (keywordTokens_length k2) as L2.
  pose proof (filter_length_le (fun k => JS.includes (keywordTokens k2) k) (keywordTokens k1)).
  assert (2 ^ 32 < 2 ^ 53)%Z by reflexivity.
  apply ratio_nonneg; lia.
Qed.

Lemma textSimilarity_nonneg t1 t2 :
  fitsArray t1 -> fitsArray t2 -> Binary64.nonneg (Prim2SF (textSimilarity t1 t2)).
Proof.
  unfold fitsArray, textSimilarity. intros H1 H2.
  pose proof (titleWords_length t1) as L1. pose proof (titleWords_length t2) as L2.
  pose proof (filter_length_le (fun w => JS.includes (titleWords t2) w) (titleWords t1)).
  assert (2 ^ 32 < 2 ^ 53)%Z by reflexivity.
  apply ratio_nonneg; lia.
Qed.

(** The decomposition of [calculateSimilarity] on string fields into its
    three sub-terms. *)
Lemma calculateSimilarity_terms t1 k1 pl1 t2 k2 pl2 :
  calculateSimilarity (mkPost (Some t1) (Some k1) pl1) (mkPost (Some t2) (Some k2) pl2)
  = Some (JS.Math_min (keywordSimilarity k1 k2 * 0.5 + pillarMatch pl1 pl2
                       + textSimilarity t1 t2 * 0.4) 1)%float.
Proof. reflexivity. Qed.

Lemma weighted_sum_nonneg (ks pm ts : float) :
  Binary64.nonneg (Prim2SF ks) -> Binary64.nonneg (Prim2SF pm) ->
  Binary64.nonneg (Prim2SF ts) ->
  Binary64.nonneg (Prim2SF (ks * 0.5 + pm + ts * 0.4)).
Proof.
  intros Hk Hp Ht. rewrite !FloatAxioms.add_spec, !FloatAxioms.mul_spec.
  repeat apply Binary64Facts.SFadd_nonneg; try assumption;
    apply Binary64Facts.SFmul_nonneg; try assumption; reflexivity.
Qed.

Lemma pillarMatch_nonneg p1 p2 : Binary64.nonneg (Prim2SF (pillarMatch p1 p2)).
Proof. unfold pillarMatch. destruct (JS.strictEquals p1 p2); vm_compute; auto. Qed.

Lemma is_nan_false_spec x : is_nan x = false -> Prim2SF x <> S754_nan.
Proof.
  unfold is_nan. rewrite FloatAxioms.eqb_spec. intros H E. rewrite E in H. discriminate H.
Qed.

Lemma SFcompare_defined x y :
  x <> S754_nan -> y <> S754_nan -> SFcompare x y <> None.
Proof.
  destruct x as [sx | sx | | sx mx ex], y as [sy | sy | | sy my ey]; simpl; congruence.
Qed.

(** Capping at one: [Math.min(x, 1)] of a number that is neither NaN nor
    negative lies between zero and one. *)
Lemma Math_min_one_range x :
  Binary64.nonneg (Prim2SF x) ->
  is_nan (JS.Math_min x 1) = false
  /\ (0 <=? JS.Math_min x 1)%float = true
  /\ (JS.Math_min x 1 <=? 1)%float = true.
Proof.
  intros Hx. pose proof (Binary64Facts.nonneg_not_nan x Hx) as Hn.
  pose proof (Binary64Facts.nonneg_zero_leb x Hx) as H0.
  unfold JS.Math_min. rewrite Hn. change (is_nan 1) with false. cbn [orb].
  destruct (x <? 1)%float eqn:Hlt.
  - auto using Binary64Facts.ltb_leb.
  - destruct (1 <? x)%float eqn:Hgt; [repeat split; reflexivity |].
    assert ((x <=? 1)%float = true) as Hle.
    { rewrite FloatAxioms.ltb_spec in Hlt, Hgt. rewrite FloatAxioms.leb_spec.
      unfold SFltb, SFleb in *.
      rewrite (Binary64Facts.SFcompare_antisym (Prim2SF x) (Prim2SF 1)) in Hgt.
      pose proof (SFcompare_defined (Prim2SF x) (Prim2SF 1) (is_nan_false_spec x Hn)
                    ltac:(discriminate)) as Hd.
      destruct (SFcompare (Prim2SF x) (Prim2SF 1)) as [[] |]; simpl in *; congruence. }
    destruct (get_sign x); auto.
Qed.

(** C1. For any two posts whose title and keywords are strings (the empty
    string included, and short enough to be split into an [Array]),
    [calculateSimilarity] returns without raising; both divisions have a
    denominator above zero, the larger of two array lengths that are at
    least one; and the result is a number, not NaN, between 0 and 1. *)
Theorem calculateSimilarity_in_unit_interval :
  forall (t1 k1 t2 k2 : string) (pl1 pl2 : option string),
    fitsArray t1 -> fitsArray k1 -> fitsArray t2 -> fitsArray k2 ->
    (1 <= List.length (keywordTokens k1) /\ 1 <= List.length (keywordTokens k2)
     /\ (0 <? JS.Math_max (JS.num (List.length (keywordTokens k1)))
                          (JS.num (List.length (keywordTokens k2))))%float = true)
    /\ (1 <= List.length (titleWords t1) /\ 1 <= List.length (titleWords t2)
        /\ (0 <? JS.Math_max (JS.num (List.length (titleWords t1)))
                             (JS.num (List.length (titleWords t2))))%float = true)
    /\ exists r : float,
         calculateSimilarity (mkPost (Some t1) (Some k1) pl1)
                             (mkPost (Some t2) (Some k2) pl2) = Some r
         /\ is_nan r = false
         /\ (0 <=? r)%float = true
         /\ (r <=? 1)%float = true.
Proof.
  intros t1 k1 t2 k2 pl1 pl2 Ht1 Hk1 Ht2 Hk2.
  pose proof (keywordTokens_length k1). pose proof (keywordTokens_length k2).
  pose proof (titleWords_length t1). pose proof (titleWords_length t2).
  assert (2 ^ 32 < 2 ^ 53)%Z by reflexivity. unfold fitsArray in *.
  split; [| split].
  - repeat split; try lia.
    apply positive_finite_above_zero, Math_max_lengths_positive; lia.
  - repeat split; try lia.
    apply positive_finite_above_zero, Math_max_lengths_positive; lia.
  - eexists. split; [apply calculateSimilarity_terms |].
    apply Math_min_one_range, weighted_sum_nonneg.
    + now apply keywordSimilarity_nonneg.
    + apply pillarMatch_nonneg.
    + now apply textSimilarity_nonneg.
Qed.

Lemma calculateSimilarity_in_unit_interval_witness :
  exists r : float,
    calculateSimilarity (mkPost (Some "") (Some "") None)
                        (mkPost (Some "Harvest notes") (Some "") (Some "Wine Education"))
    = Some r
    /\ is_nan r = false /\ (0 <=? r)%float = true /\ (r <=? 1)%float = true.
Proof.
  apply (calculateSimilarity_in_unit_interval "" "" "Harvest notes" "" None
           (Some "Wine Education")); reflexivity.
Defined.

(** ** Empty keyword strings and titles *)

Lemma zero_div_positive (d : float) :
  Binary64.positive_finite (Prim2SF d) -> (JS.num 0 / d)%float = 0%float.
Proof.
  intros Hp. apply Prim2SF_inj. rewrite FloatAxioms.div_spec.
  change (Prim2SF (JS.num 0)) with (S754_zero false).
  destruct (Prim2SF d) as [s | s | | s mm e]; simpl in Hp; try tauto.
  subst s. reflexivity.
Qed.

(** A ratio whose numerator counts no shared token is zero. *)
Lemma ratio_of_no_shared (tokens1 tokens2 : list string) :
  1 <= List.length tokens1 ->
  (Z.of_nat (List.length tokens1) < 2 ^ 53)%Z ->
  (Z.of_nat (List.length tokens2) < 2 ^ 53)%Z ->
  filter (fun k => JS.includes tokens2 k) tokens1 = [] ->
  (JS.num (List.length (filter (fun k => JS.includes tokens2 k) tokens1))
   / JS.Math_max (JS.num (List.length tokens1)) (JS.num (List.length tokens2)))%float
  = 0%float.
Proof.
  intros H1 H2 H3 E. rewrite E. apply zero_div_positive, Math_max_lengths_positive; lia.
Qed.

Lemma no_shared_with_empty_left (tokens2 : list string) :
  JS.includes tokens2 "" = false ->
  filter (fun k => JS.includes tokens2 k) [""] = [].
Proof. intros H. simpl. now rewrite H. Qed.

Lemma no_shared_with_empty_right (tokens1 : list string) :
  JS.includes tokens1 "" = false ->
  filter (fun k => JS.includes [""] k) tokens1 = [].
Proof.
  unfold JS.includes. induction tokens1 as [| a l IH]; [reflexivity |].
  destruct a as [| c a]; simpl; intros H; [discriminate H | exact (IH H)].
Qed.

(** C2, counterexample. Two posts whose keyword strings and titles are
    empty: each string splits into the single empty token, the two lists
    share it, and the sub-terms contribute 0.5 and 0.4, not 0. *)
Lemma empty_strings_contribute_in_full :
  exists a b : Post,
    keywords a = Some "" /\ keywords b = Some ""
    /\ title a = Some "" /\ title b = Some ""
    /\ keywordTokens "" = [""] /\ titleWords "" = [""]
    /\ (keywordSimilarity "" "" * 0.5)%float = 0.5%float
    /\ (textSimilarity "" "" * 0.4)%float = 0.4%float
    /\ calculateSimilarity a b = Some 0.9%float.
Proof.
  exists (mkPost (Some "") (Some "") (Some "Wine Education")),
         (mkPost (Some "") (Some "") (Some "Events & Experiences")).
  repeat split; reflexivity.
Qed.

(** C2, amended. The token list of a keyword string and the word list of
    a title are never empty (the empty string gives the single empty
    token), so both denominators are at least one and no division by zero
    arises. The keyword sub-term is 0 when one keyword string is empty and
    the other has no empty token, and the title sub-term is 0 when one title
    is empty and the other has no empty word; when both strings are empty
    the sub-term is 1, contributing its whole weight. *)
Theorem empty_side_contributes_zero :
  forall k1 k2 t1 t2 : string,
    fitsArray k1 -> fitsArray k2 -> fitsArray t1 -> fitsArray t2 ->
    (keywordTokens k1 <> [] /\ keywordTokens k2 <> []
     /\ titleWords t1 <> [] /\ titleWords t2 <> [])
    /\ 1 <= Nat.max (List.length (keywordTokens k1)) (List.length (keywordTokens k2))
    /\ 1 <= Nat.max (List.length (titleWords t1)) (List.length (titleWords t2))
    /\ (k1 = "" -> JS.includes (keywordTokens k2) "" = false ->
        (keywordSimilarity k1 k2 * 0.5)%float = 0%float)
    /\ (k2 = "" -> JS.includes (keywordTokens k1) "" = false ->
        (keywordSimilarity k1 k2 * 0.5)%float = 0%float)
    /\ (t1 = "" -> JS.includes (titleWords t2) "" = false ->
        (textSimilarity t1 t2 * 0.4)%float = 0%float)
    /\ (t2 = "" -> JS.includes (titleWords t1) "" = false ->
        (textSimilarity t1 t2 * 0.4)%float = 0%float)
    /\ (k1 = "" -> k2 = "" -> (keywordSimilarity k1 k2 * 0.5)%float = 0.5%float)
    /\ (t1 = "" -> t2 = "" -> (textSimilarity t1 t2 * 0.4)%float = 0.4%float).
Proof.
  intros k1 k2 t1 t2 Hk1 Hk2 Ht1 Ht2. unfold fitsArray in *.
  pose proof (keywordTokens_length k1) as Lk1. pose proof (keywordTokens_length k2) as Lk2.
  pose proof (titleWords_length t1) as Lt1. pose proof (titleWords_length t2) as Lt2.
  assert (2 ^ 32 < 2 ^ 53)%Z as Hpow by reflexivity.
  split.
  { repeat split; intros E; rewrite E in *; simpl in *; lia. }
  split; [lia |]. split; [lia |].
  repeat split.
  - intros -> Hno. unfold keywordSimilarity.
    rewrite ratio_of_no_shared; [reflexivity | lia | lia | lia |].
    now apply no_shared_with_empty_left.
  - intros -> Hno. unfold keywordSimilarity.
    rewrite ratio_of_no_shared; [reflexivity | lia | lia | lia |].
    now apply no_shared_with_empty_right.
  - intros -> Hno. unfold textSimilarity.
    rewrite ratio_of_no_shared; [reflexivity | lia | lia | lia |].
    now apply no_shared_with_empty_left.
  - intros -> Hno. unfold textSimilarity.
    rewrite ratio_of_no_shared; [reflexivity | lia | lia | lia |].
    now apply no_shared_with_empty_right.
  - intros -> ->. reflexivity.
  - intros -> ->. reflexivity.
Qed.

Lemma empty_side_contributes_zero_witness :
  (keywordSimilarity "" "wine tasting, vineyard tours" * 0.5)%float = 0%float
  /\ (textSimilarity "Harvest notes" "" * 0.4)%float = 0%float.
Proof.
  pose proof (empty_side_contributes_zero "" "wine tasting, vineyard tours"
                "Harvest notes" "") as H.
  destruct H as (_ & _ & _ & Hk & _ & _ & Ht & _); try reflexivity.
  split.
  - apply Hk; reflexivity.
  - apply Ht; reflexivity.
Defined.

(** ** Asymmetry *)

(** C6. [calculateSimilarity] is not symmetric: a post that repeats a
    token counts it once per occurrence, so swapping the arguments changes
    the score. *)
Theorem calculateSimilarity_asymmetric :
  exists (a b : Post) (ka : string) (x y : float),
    keywords a = Some ka
    /\ ~ NoDup (keywordTokens ka)
    /\ calculateSimilarity a b = Some x
    /\ calculateSimilarity b a = Some y
    /\ x <> y.
Proof.
  exists (mkPost (Some "Harvest") (Some "wine, wine, wine, grapes") (Some "Wine Education")),
         (mkPost (Some "Cellar") (Some "wine, oak, barrels, cork") (Some "Winemaking")),
         "wine, wine, wine, grapes", 0.375%float, 0.125%float.
  split; [reflexivity |]. split.
  - vm_compute. intros H. inversion H as [| ? ? Hin _]; subst. apply Hin. now left.
  - split; [reflexivity |]. split; [reflexivity |].
    intros E. apply (f_equal (fun v => (v <? 0.2)%float)) in E. vm_compute in E. discriminate E.
Qed.

(** ** The option monad *)

Lemma mapM_total {A B : Type} (f : A -> option B) (g : A -> B) (l : list A) :
  (forall a, In a l -> f a = Some (g a)) -> mapM f l = Some (map g l).
Proof.
  induction l as [| a l IH]; intros H; simpl; [reflexivity |].
  rewrite (H a) by now left. simpl. rewrite IH; [reflexivity |].
  intros b Hb. apply H. now right.
Qed.

Lemma mapM_nth {A B : Type} (f : A -> option B) (l : list A) (r : list B) :
  mapM f l = Some r ->
  forall i b, nth_error r i = Some b -> exists a, nth_error l i = Some a /\ f a = Some b.
Proof.
  revert r. induction l as [| a l IH]; intros r H i b Hi; simpl in H.
  - inversion H; subst. destruct i; discriminate Hi.
  - destruct (f a) as [b0 |] eqn:Ea; simpl in H; [| discriminate H].
    destruct (mapM f l) as [bs |] eqn:El; simpl in H; [| discriminate H].
    inversion H; subst. destruct i as [| i]; simpl in *.
    + inversion Hi; subst. eauto.
    + eapply IH; eauto.
Qed.

Lemma filterM_Some {A : Type} (f : A -> option bool) (l r : list A) :
  filterM f l = Some r ->
  r = filter (fun a => match f a with Some b => b | None => false end) l.
Proof.
  revert r. induction l as [| a l IH]; intros r H; simpl in H.
  - now inversion H.
  - destruct (f a) as [b |] eqn:Ea; simpl in H; [| discriminate H].
    destruct (filterM f l) as [r' |] eqn:El; simpl in H; [| discriminate H].
    inversion H; subst. simpl. rewrite Ea. rewrite (IH r' eq_refl). reflexivity.
Qed.

Lemma foldM_app {A S : Type} (f : S -> A -> option S) (l1 l2 : list A) (s : S) :
  foldM f (l1 ++ l2) s = bind (foldM f l1 s) (foldM f l2).
Proof.
  revert s. induction l1 as [| a l1 IH]; intros s; simpl; [reflexivity |].
  destruct (f s a); simpl; auto.
Qed.

Lemma foldM_invariant {A S : Type} (f : S -> A -> option S) (P : S -> Prop) (l : list A) :
  (forall s a s', In a l -> P s -> f s a = Some s' -> P s') ->
  forall s s', P s -> foldM f l s = Some s' -> P s'.
Proof.
  induction l as [| a l IH]; intros Hf s s' Hs H; simpl in H.
  - now inversion H; subst.
  - destruct (f s a) as [s1 |] eqn:E; simpl in H; [| discriminate H].
    apply (IH (fun s a s' Hin => Hf s a s' (or_intror Hin)) s1 s'); auto.
    apply (Hf s a s1); auto. now left.
Qed.

Lemma foldM_total {A S : Type} (f : S -> A -> option S) (l : list A) :
  (forall s a, exists s', f s a = Some s') -> forall s, exists s', foldM f l s = Some s'.
Proof.
  intros Hf. induction l as [| a l IH]; intros s; simpl; [eauto |].
  destruct (Hf s a) as [s1 E]. rewrite E. simpl. apply IH.
Qed.

(** ** Positions *)

Lemma In_indexedFrom {A : Type} (l : list A) (k j : nat) (a : A) :
  In (j, a) (indexedFrom k l) -> k <= j /\ nth_error l (j - k) = Some a.
Proof.
  revert k. induction l as [| b l IH]; intros k H; simpl in H; [contradiction |].
  destruct H as [H | H].
  - inversion H; subst. rewrite Nat.sub_diag. auto.
  - apply IH in H. destruct H as [Hle Hn]. split; [lia |].
    replace (j - k) with (S (j - S k)) by lia. exact Hn.
Qed.

Lemma In_indexed {A : Type} (l : list A) (j : nat) (a : A) :
  In (j, a) (indexed l) -> nth_error l j = Some a.
Proof.
  intros H. apply In_indexedFrom in H. now rewrite Nat.sub_0_r in H.
Qed.

Lemma nth_error_indexedFrom {A : Type} (l : list A) (k i : nat) :
  nth_error (indexedFrom k l) i = option_map (fun a => (k + i, a)) (nth_error l i).
Proof.
  revert k i. induction l as [| b l IH]; intros k i; destruct i as [| i]; simpl; auto.
  - now rewrite Nat.add_0_r.
  - rewrite IH. now rewrite Nat.add_succ_r.
Qed.

(** ** Processed indices *)

Lemma has_add s i j : has (add s i) j = (j =? i) || has s j.
Proof. reflexivity. Qed.

Lemma has_fold_add (posts : list SimilarPost.t) (s : IndexSet) (j : nat) :
  has (fold_left (fun p post => add p (SimilarPost.index post)) posts s) j = true
  <-> has s j = true \/ In j (map SimilarPost.index posts).
Proof.
  revert s. induction posts as [| p posts IH]; intros s; simpl.
  - tauto.
  - rewrite IH, has_add, orb_true_iff, Nat.eqb_eq. intuition auto.
Qed.

(** ** Lists without repetition *)

Lemma StronglySorted_lt_NoDup (l : list nat) : StronglySorted lt l -> NoDup l.
Proof.
  induction 1 as [| a l Hs IH Hall]; constructor; auto.
  intros Hin. rewrite Forall_forall in Hall. specialize (Hall a Hin). lia.
Qed.

Lemma NoDup_app_disjoint {A : Type} (l1 l2 : list A) :
  NoDup (l1 ++ l2) -> forall a, In a l1 -> ~ In a l2.
Proof.
  induction l1 as [| b l1 IH]; simpl; intros H a Ha; [contradiction |].
  inversion H as [| ? ? Hnin Hnd]; subst. destruct Ha as [-> | Ha].
  - intros Hin. apply Hnin. apply in_or_app. now right.
  - now apply IH.
Qed.

Lemma NoDup_flat_map_disjoint {A B : Type} (f : A -> list B) (l : list A) :
  NoDup (flat_map f l) ->
  forall a b x y i,
    a <> b -> nth_error l a = Some x -> nth_error l b = Some y ->
    In i (f x) -> ~ In i (f y).
Proof.
  induction l as [| c l IH]; intros Hnd a b x y i Hab Ha Hb Hx Hy.
  - destruct a; discriminate Ha.
  - simpl in Hnd. pose proof (NoDup_app_disjoint _ _ Hnd) as Hdis.
    apply NoDup_app_remove_l in Hnd.
    destruct a as [| a], b as [| b]; simpl in Ha, Hb; try congruence.
    + inversion Ha; subst. apply (Hdis i Hx). apply in_flat_map.
      exists y. split; [eapply nth_error_In; eauto | exact Hy].
    + inversion Hb; subst. apply (Hdis i Hy). apply in_flat_map.
      exists x. split; [eapply nth_error_In; eauto | exact Hx].
    + apply (IH Hnd a b x y i); auto.
Qed.

(** ** Similar posts of one row *)

Lemma calculateSimilarity_postOf (a b : EnhancedExcelRow) :
  calculateSimilarity (postOf a) (postOf b) = Some (score a b).
Proof. unfold score, postOf. now rewrite calculateSimilarity_terms. Qed.

Lemma similarPostsOf_eq rows processed index row :
  similarPostsOf rows processed index row
  = Some (nonNull (map (candidate processed index row) (indexed rows))).
Proof.
  unfold similarPostsOf.
  rewrite (mapM_total _ (candidate processed index row)); [reflexivity |].
  intros [j rj] _. unfold candidate.
  destruct ((index =? j) || has processed j); [reflexivity |].
  change (calculateSimilarity _ _) with (calculateSimilarity (postOf row) (postOf rj)).
  now rewrite calculateSimilarity_postOf.
Qed.

Lemma In_nonNull_map {A B : Type} (f : A -> option B) (l : list A) (b : B) :
  In b (nonNull (map f l)) -> exists a, In a l /\ f a = Some b.
Proof.
  induction l as [| a l IH]; simpl; [contradiction |].
  destruct (f a) as [b' |] eqn:E.
  - intros [-> | H]; [eauto |]. destruct (IH H) as (a' & ? & ?). eauto.
  - intros H. destruct (IH H) as (a' & ? & ?). eauto.
Qed.

Lemma candidate_Some processed index row j rj p :
  candidate processed index row (j, rj) = Some p ->
  j <> index /\ has processed j = false
  /\ p = SimilarPost.mk j (score row rj) rj
  /\ (0.3 <? score row rj)%float = true.
Proof.
  unfold candidate.
  destruct (index =? j) eqn:Ej; simpl; [discriminate |].
  destruct (has processed j) eqn:Eh; [discriminate |].
  destruct (0.3 <? score row rj)%float eqn:Es; [| discriminate].
  intros H. inversion H; subst. apply Nat.eqb_neq in Ej. auto.
Qed.

Lemma candidates_sorted processed index row (l : list EnhancedExcelRow) (k : nat) :
  StronglySorted lt
    (map SimilarPost.index (nonNull (map (candidate processed index row) (indexedFrom k l))))
  /\ Forall (le k)
       (map SimilarPost.index (nonNull (map (candidate processed index row) (indexedFrom k l)))).
Proof.
  revert k. induction l as [| a l IH]; intros k; cbn [indexedFrom map nonNull].
  - split; constructor.
  - destruct (IH (S k)) as [Hs Hall].
    assert (Forall (le k) (map SimilarPost.index
              (nonNull (map (candidate processed index row) (indexedFrom (S k) l))))) as Hk.
    { eapply Forall_impl; [| exact Hall]. intros; simpl in *; lia. }
    destruct (candidate processed index row (k, a)) as [p |] eqn:E; [| auto].
    apply candidate_Some in E. destruct E as (_ & _ & -> & _). cbn [map SimilarPost.index].
    split; constructor; auto.
Qed.

Lemma candidates_memberOK rows processed index row p :
  In p (nonNull (map (candidate processed index row) (indexed rows))) ->
  memberOK rows index row p /\ has processed (SimilarPost.index p) = false.
Proof.
  intros H. apply In_nonNull_map in H. destruct H as ([j rj] & Hin & Hc).
  apply In_indexed in Hin. apply candidate_Some in Hc.
  destruct Hc as (Hj & Hp & -> & Hs). unfold memberOK. simpl. auto.
Qed.

(** ** One step of the scan *)

Lemma clusterStep_total rows st ir : exists st', clusterStep rows st ir = Some st'.
Proof.
  destruct st as [clusters processed], ir as [index row]. unfold clusterStep.
  destruct (has processed index); [eauto |].
  rewrite similarPostsOf_eq. simpl.
  destruct (0 <? List.length _); eauto.
Qed.

(** A step leaves the state alone or appends one cluster anchored at the
    current index, whose members are the current similar posts. *)
Lemma clusterStep_cases rows clusters processed index row st' :
  clusterStep rows (clusters, processed) (index, row) = Some st' ->
  st' = (clusters, processed)
  \/ (has processed index = false
      /\ exists c,
           st' = (clusters ++ [c],
                  fold_left (fun p post => add p (SimilarPost.index post)) (relatedPosts c)
                            (add processed index))
           /\ mainPost c = MainPost.mk index row
           /\ relatedPosts c = nonNull (map (candidate processed index row) (indexed rows))
           /\ relatedPosts c <> []).
Proof.
  unfold clusterStep. destruct (has processed index) eqn:Eh.
  - intros H. inversion H. now left.
  - rewrite similarPostsOf_eq. simpl.
    destruct (0 <? List.length _) eqn:El; intros H; inversion H; [| now left].
    right. split; [reflexivity |].
    match goal with |- exists c, (_ ++ [?x], _) = _ /\ _ => exists x end.
    cbn [mainPost relatedPosts]. repeat split.
    intros E. rewrite E in El. discriminate El.
Qed.

Lemma clusterStep_invariant rows st index row st' :
  nth_error rows index = Some row ->
  scanInvariant rows st ->
  clusterStep rows st (index, row) = Some st' ->
  scanInvariant rows st'.
Proof.
  destruct st as [clusters processed]. intros Hrow (Hok & Hcov & Hnd) Hstep.
  simpl in Hok, Hcov, Hnd.
  apply clusterStep_cases in Hstep.
  destruct Hstep as [-> | (Hfresh & c & -> & Hmain & Hrel & Hne)]; [repeat split; assumption |].
  assert (forall p, In p (relatedPosts c) ->
                    memberOK rows index row p /\ has processed (SimilarPost.index p) = false)
    as Hmem by (rewrite Hrel; apply candidates_memberOK).
  assert (StronglySorted lt (map SimilarPost.index (relatedPosts c))) as Hsorted
    by (rewrite Hrel; apply candidates_sorted).
  unfold scanInvariant. simpl fst. simpl snd. repeat split.
  - apply Forall_app. split; [assumption |]. constructor; [| constructor].
    unfold clusterOK. rewrite Hmain. simpl. repeat split; auto.
    apply Forall_forall. intros p Hp. now apply Hmem.
  - intros c' i Hc' Hi. apply has_fold_add. rewrite has_add.
    apply in_app_or in Hc'. destruct Hc' as [Hc' | [<- | []]].
    + left. rewrite (Hcov c' i Hc' Hi). apply orb_true_r.
    + unfold clusterIndices in Hi. rewrite Hmain in Hi. simpl in Hi.
      destruct Hi as [<- | Hi]; [| now right].
      left. now rewrite Nat.eqb_refl.
  - rewrite flat_map_app. simpl. rewrite app_nil_r. apply NoDup_app; [assumption | |].
    + unfold clusterIndices. rewrite Hmain. simpl. constructor.
      * intros Hin. apply in_map_iff in Hin. destruct Hin as (p & Hp & Hin).
        destruct (Hmem p Hin) as [(Hneq & _) _]. congruence.
      * now apply StronglySorted_lt_NoDup.
    + intros i Hi Hi'. apply in_flat_map in Hi. destruct Hi as (c' & Hc' & Hi).
      pose proof (Hcov c' i Hc' Hi) as Hp.
      unfold clusterIndices in Hi'. rewrite Hmain in Hi'. simpl in Hi'.
      destruct Hi' as [<- | Hi']; [congruence |].
      apply in_map_iff in Hi'. destruct Hi' as (p & <- & Hin).
      destruct (Hmem p Hin) as [_ Hfalse]. congruence.
Qed.

(** ** The whole scan *)

Lemma scanInvariant_initial rows : scanInvariant rows ([], []).
Proof. repeat split; simpl; try constructor. intros c i []. Qed.

Lemma foldM_clusterStep_total rows l st : exists st', foldM (clusterStep rows) l st = Some st'.
Proof. apply foldM_total. intros. apply clusterStep_total. Qed.

Lemma foldM_clusterStep_invariant rows l st st' :
  (forall ir, In ir l -> nth_error rows (fst ir) = Some (snd ir)) ->
  scanInvariant rows st ->
  foldM (clusterStep rows) l st = Some st' ->
  scanInvariant rows st'.
Proof.
  intros Hl. apply foldM_invariant. intros s [index row] s' Hin Hs Hstep.
  apply (clusterStep_invariant rows s index row s' (Hl _ Hin) Hs Hstep).
Qed.

Lemma indexed_rows_nth (rows : list EnhancedExcelRow) ir :
  In ir (indexed rows) -> nth_error rows (fst ir) = Some (snd ir).
Proof. destruct ir. apply In_indexed. Qed.

Lemma identifySemanticClusters_scan rows :
  exists st,
    foldM (clusterStep rows) (indexed rows) ([], []) = Some st
    /\ identifySemanticClusters rows = Some (fst st)
    /\ scanInvariant rows st.
Proof.
  destruct (foldM_clusterStep_total rows (indexed rows) ([], [])) as [st Hst].
  exists st. split; [exact Hst |]. split.
  - unfold identifySemanticClusters. now rewrite Hst.
  - eapply foldM_clusterStep_invariant; eauto using indexed_rows_nth, scanInvariant_initial.
Qed.

(** A row in a well-formed cluster has a neighbour scoring above 0.3 in
    one of the two argument orders. *)
Lemma clustered_row_has_neighbour rows c i ri :
  clusterOK rows c -> nth_error rows i = Some ri -> In i (clusterIndices c) ->
  exists j rj,
    j <> i /\ nth_error rows j = Some rj
    /\ ((0.3 <? score ri rj)%float = true \/ (0.3 <? score rj ri)%float = true).
Proof.
  intros (Hanchor & Hne & _ & Hmem) Hi Hin. rewrite Forall_forall in Hmem.
  unfold clusterIndices in Hin. simpl in Hin. destruct Hin as [<- | Hin].
  - destruct (relatedPosts c) as [| p posts]; [congruence |].
    destruct (Hmem p (or_introl eq_refl)) as (Hneq & Hrow & Hsim & Hgt).
    exists (SimilarPost.index p), (SimilarPost.row p). repeat split; auto.
    left. rewrite Hanchor in Hi. inversion Hi; subst. now rewrite <- Hsim.
  - apply in_map_iff in Hin. destruct Hin as (p & <- & Hp).
    destruct (Hmem p Hp) as (Hneq & Hrow & Hsim & Hgt).
    exists (MainPost.index (mainPost c)), (MainPost.row (mainPost c)).
    repeat split; auto. right. rewrite Hrow in Hi. inversion Hi; subst. now rewrite <- Hsim.
Qed.

(** C3. The scan returns clusters in which no row index occurs in two
    distinct clusters, anchors and members alike; and a row whose score
    against every other row is at most 0.3 in both argument orders is in no
    cluster. *)
Theorem clusters_are_disjoint :
  forall rows : list EnhancedExcelRow,
  exists cs : list SemanticCluster,
    identifySemanticClusters rows = Some cs
    /\ (forall a b ca cb i,
          a <> b -> nth_error cs a = Some ca -> nth_error cs b = Some cb ->
          In i (clusterIndices ca) -> ~ In i (clusterIndices cb))
    /\ (forall i ri,
          nth_error rows i = Some ri ->
          (forall j rj, j <> i -> nth_error rows j = Some rj ->
                        (score ri rj <=? 0.3)%float = true
                        /\ (score rj ri <=? 0.3)%float = true) ->
          forall c, In c cs -> ~ In i (clusterIndices c)).
Proof.
  intros rows. destruct (identifySemanticClusters_scan rows) as (st & _ & Hcs & Hok & _ & Hnd).
  exists (fst st). split; [exact Hcs |]. split.
  - now apply NoDup_flat_map_disjoint.
  - intros i ri Hi Hfar c Hc Hin. rewrite Forall_forall in Hok.
    destruct (clustered_row_has_neighbour rows c i ri (Hok c Hc) Hi Hin)
      as (j & rj & Hj & Hrj & Hgt).
    destruct (Hfar j rj Hj Hrj) as [H1 H2].
    apply Binary64Facts.leb_not_gtb in H1, H2. destruct Hgt; congruence.
Qed.

Lemma clusters_are_disjoint_witness :
  exists cs : list SemanticCluster,
    identifySemanticClusters [Examples.Row1; Examples.Row2; Examples.Row3] = Some cs
    /\ forall c, In c cs -> ~ In 2 (clusterIndices c).
Proof.
  destruct (clusters_are_disjoint [Examples.Row1; Examples.Row2; Examples.Row3])
    as (cs & Hcs & _ & Hfar).
  exists cs. split; [exact Hcs |].
  apply (Hfar 2 Examples.Row3 eq_refl).
  intros j rj Hj Hn.
  destruct j as [| [| [| j]]]; simpl in Hn.
  - inversion Hn; subst. split; reflexivity.
  - inversion Hn; subst. split; reflexivity.
  - congruence.
  - destruct j; discriminate Hn.
Defined.

(** ** Rows left unclustered at their turn *)

Lemma prefix_rows_nth (rows : list EnhancedExcelRow) i ir :
  In ir (firstn i (indexed rows)) -> nth_error rows (fst ir) = Some (snd ir).
Proof.
  intros H. apply indexed_rows_nth. rewrite <- (firstn_skipn i (indexed rows)).
  apply in_or_app. now left.
Qed.

Lemma suffix_rows_nth (rows : list EnhancedExcelRow) i j r :
  In (j, r) (skipn (S i) (indexed rows)) -> i < j /\ nth_error rows j = Some r.
Proof.
  intros H. apply In_nth_error in H. destruct H as [n Hn].
  rewrite nth_error_skipn in Hn. unfold indexed in Hn. rewrite nth_error_indexedFrom in Hn.
  destruct (nth_error rows (S i + n)) as [a |] eqn:E; simpl in Hn; [| discriminate Hn].
  inversion Hn; subst. split; [lia | exact E].
Qed.

Lemma indexed_nth (rows : list EnhancedExcelRow) i ri :
  nth_error rows i = Some ri -> nth_error (indexed rows) i = Some (i, ri).
Proof. intros H. unfold indexed. now rewrite nth_error_indexedFrom, H. Qed.

(** The scan after index [i], started from the state reached at [i] when
    the callback leaves that state alone. *)
Lemma scan_from_turn rows i ri st :
  nth_error rows i = Some ri ->
  stateBefore rows i = Some st ->
  clusterStep rows st (i, ri) = Some st ->
  foldM (clusterStep rows) (indexed rows) ([], [])
  = foldM (clusterStep rows) (skipn (S i) (indexed rows)) st.
Proof.
  intros Hi Hbefore Hstep. unfold stateBefore in Hbefore.
  rewrite <- (firstn_skipn_middle i (indexed rows) (indexed_nth rows i ri Hi)) at 1.
  rewrite foldM_app, Hbefore. simpl. now rewrite Hstep.
Qed.

Lemma clusterStep_skips rows clusters processed i ri :
  has processed i = false ->
  similarPostsOf rows processed i ri = Some [] ->
  clusterStep rows (clusters, processed) (i, ri) = Some (clusters, processed).
Proof. intros Hp Hs. unfold clusterStep. now rewrite Hp, Hs. Qed.

(** Clusters appended after the turn of index [i] are anchored beyond [i]. *)
Lemma later_clusters_anchor_later rows i clusters l st st' :
  (forall j r, In (j, r) l -> i < j /\ nth_error rows j = Some r) ->
  scanInvariant rows st ->
  (forall c, In c (fst st) -> In c clusters \/ i < MainPost.index (mainPost c)) ->
  foldM (clusterStep rows) l st = Some st' ->
  scanInvariant rows st'
  /\ (forall c, In c (fst st') -> In c clusters \/ i < MainPost.index (mainPost c)).
Proof.
  intros Hl Hinv Hold Hfold.
  apply (foldM_invariant (clusterStep rows)
           (fun s => scanInvariant rows s
                     /\ (forall c, In c (fst s) ->
                                   In c clusters \/ i < MainPost.index (mainPost c)))
           l) with (s := st); auto.
  intros [cl pr] [j r] s' Hin [Hs Ho] Hstep. destruct (Hl j r Hin) as [Hij Hr]. split.
  - apply (clusterStep_invariant rows (cl, pr) j r s' Hr Hs Hstep).
  - apply clusterStep_cases in Hstep.
    destruct Hstep as [-> | (_ & c & -> & Hmain & _)]; [exact Ho |].
    simpl. intros c' Hc'. apply in_app_or in Hc'. destruct Hc' as [Hc' | [<- | []]].
    + now apply Ho.
    + right. now rewrite Hmain.
Qed.

(** C4, counterexample. Row 0 finds no row scoring above 0.3 at its turn,
    yet the later anchor at row 1 scores above 0.3 against it (the score is
    not symmetric) and claims it as a member. *)
Lemma unclustered_row_is_claimed_later :
  exists (rows : list EnhancedExcelRow) (i : nat) (ri : EnhancedExcelRow)
         (cs : list SemanticCluster) (c : SemanticCluster),
    nth_error rows i = Some ri
    /\ stateBefore rows i = Some ([], [])
    /\ similarPostsOf rows [] i ri = Some []
    /\ identifySemanticClusters rows = Some cs
    /\ In c cs
    /\ MainPost.index (mainPost c) = 1
    /\ In i (map SimilarPost.index (relatedPosts c)).
Proof.
  exists [Examples.Single; Examples.Repeating], 0, Examples.Single.
  eexists. eexists.
  split; [reflexivity |]. split; [reflexivity |]. split; [reflexivity |].
  split; [vm_compute; reflexivity |].
  split; [left; reflexivity |]. split; [reflexivity |]. left. reflexivity.
Qed.

(** C4, amended. A row that is unclaimed at its turn and finds no
    unclaimed row scoring above 0.3 never anchors a cluster; it is a member
    of a cluster only when a later anchor scores above 0.3 against it. *)
Theorem unclustered_row_never_anchors :
  forall (rows : list EnhancedExcelRow) (i : nat) (ri : EnhancedExcelRow)
         (clusters : list SemanticCluster) (processed : IndexSet),
    nth_error rows i = Some ri ->
    stateBefore rows i = Some (clusters, processed) ->
    has processed i = false ->
    similarPostsOf rows processed i ri = Some [] ->
    exists cs : list SemanticCluster,
      identifySemanticClusters rows = Some cs
      /\ forall c, In c cs ->
           MainPost.index (mainPost c) <> i
           /\ (In i (map SimilarPost.index (relatedPosts c)) ->
               exists rk,
                 i < MainPost.index (mainPost c)
                 /\ nth_error rows (MainPost.index (mainPost c)) = Some rk
                 /\ (0.3 <? score rk ri)%float = true).
Proof.
  intros rows i ri clusters processed Hi Hbefore Hfree Hnone.
  pose proof (clusterStep_skips rows clusters processed i ri Hfree Hnone) as Hskip.
  pose proof (scan_from_turn rows i ri (clusters, processed) Hi Hbefore Hskip) as Hscan.
  assert (scanInvariant rows (clusters, processed)) as Hinv.
  { apply (foldM_clusterStep_invariant rows (firstn i (indexed rows)) ([], []));
      auto using scanInvariant_initial. intros ir. apply prefix_rows_nth. }
  destruct (foldM_clusterStep_total rows (skipn (S i) (indexed rows)) (clusters, processed))
    as [st' Hst'].
  destruct (later_clusters_anchor_later rows i clusters _ _ _
              (suffix_rows_nth rows i) Hinv (fun c H => or_introl H) Hst')
    as [(Hok & _ & _) Hlate].
  exists (fst st'). split.
  - unfold identifySemanticClusters. now rewrite Hscan, Hst'.
  - intros c Hc. destruct Hinv as (_ & Hcov & _). simpl in Hcov.
    rewrite Forall_forall in Hok. destruct (Hok c Hc) as (Hanchor & _ & _ & Hmem).
    rewrite Forall_forall in Hmem.
    destruct (Hlate c Hc) as [Hearly | Hgt].
    + assert (~ In i (clusterIndices c)) as Hnot.
      { intros Hin. rewrite (Hcov c i Hearly Hin) in Hfree. discriminate Hfree. }
      unfold clusterIndices in Hnot. simpl in Hnot. split; [tauto |]. intros Hin. tauto.
    + split; [lia |]. intros Hin. apply in_map_iff in Hin. destruct Hin as (p & Hp & Hin).
      destruct (Hmem p Hin) as (_ & Hrow & Hsim & Hs).
      exists (MainPost.row (mainPost c)). repeat split; auto.
      rewrite Hp, Hi in Hrow. inversion Hrow; subst. now rewrite <- Hsim.
Qed.

Lemma unclustered_row_never_anchors_witness :
  exists cs : list SemanticCluster,
    identifySemanticClusters [Examples.Single; Examples.Repeating] = Some cs
    /\ forall c, In c cs ->
         MainPost.index (mainPost c) <> 0
         /\ (In 0 (map SimilarPost.index (relatedPosts c)) ->
             exists rk,
               0 < MainPost.index (mainPost c)
               /\ nth_error [Examples.Single; Examples.Repeating] (MainPost.index (mainPost c))
                  = Some rk
               /\ (0.3 <? score rk Examples.Single)%float = true).
Proof.
  apply (unclustered_row_never_anchors [Examples.Single; Examples.Repeating] 0
           Examples.Single [] []); reflexivity.
Defined.

(** ** Order of the members of a cluster *)

(** C5, counterexample. The anchor at row 0 lists row 1 (score 0.5) before
    row 2 (score 1): the members are in row order, ascending in score here. *)
Lemma members_are_not_sorted_by_score :
  exists (cs : list SemanticCluster) (c : SemanticCluster) (p q : SimilarPost.t),
    identifySemanticClusters [Examples.Anchor; Examples.Loose; Examples.Close] = Some cs
    /\ In c cs
    /\ relatedPosts c = [p; q]
    /\ SimilarPost.similarity p = 0.5%float
    /\ SimilarPost.similarity q = 1%float
    /\ (SimilarPost.similarity p <? SimilarPost.similarity q)%float = true.
Proof.
  do 4 eexists. split; [vm_compute; reflexivity |].
  split; [left; reflexivity |]. split; [reflexivity |]. repeat split; reflexivity.
Qed.

(** C5, amended. Each cluster lists its members in ascending row index
    (the order of the input), every member being another row that carries
    its score against the anchor, which exceeds 0.3. *)
Theorem members_are_in_row_order :
  forall rows : list EnhancedExcelRow,
  exists cs : list SemanticCluster,
    identifySemanticClusters rows = Some cs
    /\ forall c, In c cs ->
         StronglySorted lt (map SimilarPost.index (relatedPosts c))
         /\ Forall (memberOK rows (MainPost.index (mainPost c)) (MainPost.row (mainPost c)))
                   (relatedPosts c).
Proof.
  intros rows. destruct (identifySemanticClusters_scan rows) as (st & _ & Hcs & Hok & _).
  exists (fst st). split; [exact Hcs |].
  intros c Hc. rewrite Forall_forall in Hok.
  destruct (Hok c Hc) as (_ & _ & Hsorted & Hmem). auto.
Qed.

(** ** Dependence on the order of the rows *)

(** C7. Swapping the first two rows of a chain changes which rows are
    grouped: anchored at [Tours], the scan never groups [Weddings] with
    [Barrels]; anchored at [Weddings], it does. *)
Theorem clustering_depends_on_row_order :
  exists (rows rows' : list EnhancedExcelRow) (cs cs' : list SemanticCluster)
         (a b : EnhancedExcelRow),
    Permutation rows rows'
    /\ identifySemanticClusters rows = Some cs
    /\ identifySemanticClusters rows' = Some cs'
    /\ In a rows /\ In b rows
    /\ together cs' a b
    /\ ~ together cs a b.
Proof.
  exists [Examples.Tours; Examples.Weddings; Examples.Barrels],
         [Examples.Weddings; Examples.Tours; Examples.Barrels].
  do 2 eexists. exists Examples.Weddings, Examples.Barrels.
  split; [apply perm_swap |].
  split; [vm_compute; reflexivity |]. split; [vm_compute; reflexivity |].
  split; [right; left; reflexivity |]. split; [right; right; left; reflexivity |].
  split.
  - eexists. split; [left; reflexivity |]. split.
    + left. reflexivity.
    + right. right. left. reflexivity.
  - intros (c & [<- | []] & _ & Hb). simpl in Hb.
    destruct Hb as [Hb | [Hb | []]]; discriminate Hb.
Qed.

(** ** The end-to-end example *)

(** C9. On the three rows of the example the analysis yields one cluster,
    anchored at Row1 with Row2 as its only member; Row3 scores exactly 0.3
    against Row1, which is not above the threshold; the distribution counts
    two rows of "Wine Education" and one of "Events & Experiences"; and no
    content gap is reported. *)
Theorem spec_example_analysis :
  exists (result : ContentAnalysisResult) (c : SemanticCluster),
    analyzeContentHolistically [Examples.Row1; Examples.Row2; Examples.Row3] = Some result
    /\ semanticClusters result = [c]
    /\ MainPost.index (mainPost c) = 0
    /\ MainPost.row (mainPost c) = Examples.Row1
    /\ map SimilarPost.row (relatedPosts c) = [Examples.Row2]
    /\ ~ In Examples.Row3 (clusterRows c)
    /\ score Examples.Row1 Examples.Row3 = 0.3%float
    /\ (0.3 <? score Examples.Row1 Examples.Row3)%float = false
    /\ pillarDistribution result = [("Wine Education", 2); ("Events & Experiences", 1)]
    /\ contentGaps result = [].
Proof.
  do 2 eexists. split; [vm_compute; reflexivity |].
  split; [reflexivity |]. repeat split; try reflexivity.
  simpl. intros [H | [H | []]]; discriminate H.
Qed.

(** ** Internal link opportunities *)

Lemma truthy_orEmpty (v : option string) :
  JS.truthy v = true -> v = Some (JS.orEmpty v) /\ JS.orEmpty v <> "".
Proof.
  destruct v as [s |]; simpl; [| discriminate].
  destruct (String.eqb s "") eqn:E; simpl; [discriminate |].
  intros _. split; [reflexivity |]. now apply String.eqb_neq.
Qed.

Lemma findRelatedPublishedPosts_Some currentRow allRows links :
  findRelatedPublishedPosts currentRow allRows = Some links ->
  links = map (fun row => JS.orEmpty (published_url row))
              (firstn 3 (filter (linkable currentRow) (otherPublished currentRow allRows))).
Proof.
  unfold findRelatedPublishedPosts. fold (otherPublished currentRow allRows).
  destruct (filterM _ (otherPublished currentRow allRows)) as [related |] eqn:E;
    cbn [bind]; [| discriminate].
  intros H. injection H as <-. apply filterM_Some in E. rewrite E.
  apply f_equal, (f_equal (firstn 3)), filter_ext. intros row. unfold linkable, rawPost.
  destruct (calculateSimilarity _ _); reflexivity.
Qed.

Lemma In_otherPublished currentRow allRows row :
  In row (otherPublished currentRow allRows) ->
  In row allRows /\ JS.truthy (published_url row) = true /\ ref row <> ref currentRow.
Proof.
  unfold otherPublished. rewrite filter_In, andb_true_iff, negb_true_iff, Nat.eqb_neq. tauto.
Qed.

Lemma In_firstn {A : Type} (n : nat) (l : list A) (a : A) : In a (firstn n l) -> In a l.
Proof.
  intros H. rewrite <- (firstn_skipn n l). apply in_or_app. now left.
Qed.

(** The entry at position [i] is built from the [i]-th published row. *)
Lemma opportunity_source rows opps i o :
  identifyInternalLinkOpportunities rows = Some opps ->
  nth_error opps i = Some o ->
  exists src,
    nth_error (filter (fun row => JS.truthy (published_url row)) rows) i = Some src
    /\ postIndex o = i
    /\ opp_title o = JS.orEmpty (B src)
    /\ url o = JS.orEmpty (published_url src)
    /\ findRelatedPublishedPosts src rows = Some (suggestedLinks o).
Proof.
  unfold identifyInternalLinkOpportunities. intros H Hi.
  destruct (mapM_nth _ _ _ H i o Hi) as ([j src] & Hn & Hf).
  unfold indexed in Hn. rewrite nth_error_indexedFrom in Hn.
  destruct (nth_error (filter _ rows) i) as [src' |] eqn:E; simpl in Hn; [| discriminate Hn].
  inversion Hn; subst. exists src. split; [reflexivity |].
  cbv beta iota in Hf.
  destruct (findRelatedPublishedPosts src rows) as [links |]; cbn [bind] in Hf;
    [| discriminate Hf].
  injection Hf as <-. simpl. auto.
Qed.

(** C8, counterexample. Two published rows carry the same URL; each is
    listed as a suggestion of the other, so the list of the first holds its
    own URL. *)
Lemma suggestions_can_repeat_own_url :
  exists (opps : list InternalLinkOpportunity) (o : InternalLinkOpportunity),
    identifyInternalLinkOpportunities [Examples.Guide; Examples.GuideAgain] = Some opps
    /\ nth_error opps 0 = Some o
    /\ url o = "https://example.com/guide"
    /\ suggestedLinks o = ["https://example.com/guide"]
    /\ In (url o) (suggestedLinks o).
Proof.
  do 2 eexists. split; [vm_compute; reflexivity |].
  split; [reflexivity |]. split; [reflexivity |]. split; [reflexivity |].
  left. reflexivity.
Qed.

(** C8, amended. Each entry suggests at most three URLs: those of the
    first three rows, in row order and without sorting by score, among the
    published rows other than the source row object that score above 0.2
    against it. The source row itself is never the origin of a suggestion;
    its URL is listed only when another row carries the same URL. *)
Theorem suggestions_come_from_other_rows :
  forall (rows : list EnhancedExcelRow) (opps : list InternalLinkOpportunity)
         (i : nat) (o : InternalLinkOpportunity),
    identifyInternalLinkOpportunities rows = Some opps ->
    nth_error opps i = Some o ->
    exists src,
      nth_error (filter (fun row => JS.truthy (published_url row)) rows) i = Some src
      /\ suggestedLinks o
         = map (fun row => JS.orEmpty (published_url row))
               (firstn 3 (filter (linkable src) (otherPublished src rows)))
      /\ List.length (suggestedLinks o) <= 3
      /\ forall u, In u (suggestedLinks o) ->
           exists row,
             In row rows /\ ref row <> ref src
             /\ published_url row = Some u /\ u <> ""
             /\ linkable src row = true.
Proof.
  intros rows opps i o H Hi.
  destruct (opportunity_source rows opps i o H Hi) as (src & Hsrc & _ & _ & _ & Hlinks).
  apply findRelatedPublishedPosts_Some in Hlinks.
  exists src. split; [exact Hsrc |]. split; [exact Hlinks |]. split.
  - rewrite Hlinks, length_map. apply firstn_le_length.
  - intros u Hu. rewrite Hlinks in Hu. apply in_map_iff in Hu.
    destruct Hu as (row & <- & Hrow). apply In_firstn in Hrow.
    apply filter_In in Hrow. destruct Hrow as [Hother Hlink].
    apply In_otherPublished in Hother. destruct Hother as (Hin & Hpub & Href).
    destruct (truthy_orEmpty _ Hpub) as [Hurl Hne].
    exists row. auto.
Qed.

Lemma suggestions_come_from_other_rows_witness :
  exists src,
    nth_error (filter (fun row => JS.truthy (published_url row))
                      [Examples.Draft; Examples.Guide; Examples.GuideAgain]) 0 = Some src
    /\ ["https://example.com/guide"]
       = map (fun row => JS.orEmpty (published_url row))
             (firstn 3 (filter (linkable src)
                          (otherPublished src
                             [Examples.Draft; Examples.Guide; Examples.GuideAgain])))
    /\ 1 <= 3
    /\ forall u, In u ["https://example.com/guide"] ->
         exists row,
           In row [Examples.Draft; Examples.Guide; Examples.GuideAgain]
           /\ ref row <> ref src
           /\ published_url row = Some u /\ u <> ""
           /\ linkable src row = true.
Proof.
  apply (suggestions_come_from_other_rows
           [Examples.Draft; Examples.Guide; Examples.GuideAgain]
           [mkOpportunity 0 "Tasting Guide" "https://example.com/guide"
                          ["https://example.com/guide"];
            mkOpportunity 1 "Tasting Guide Updated" "https://example.com/guide"
                          ["https://example.com/guide"]]
           0
           (mkOpportunity 0 "Tasting Guide" "https://example.com/guide"
                          ["https://example.com/guide"])); reflexivity.
Defined.

(** C10. The [postIndex] of the entry at position [i] is [i], the position
    of its source row among the rows that have a published URL; it is not
    the index of the source row in the input, as a list that starts with an
    unpublished row shows. *)
Theorem postIndex_is_position_among_published :
  (forall (rows : list EnhancedExcelRow) (opps : list InternalLinkOpportunity)
          (i : nat) (o : InternalLinkOpportunity),
      identifyInternalLinkOpportunities rows = Some opps ->
      nth_error opps i = Some o ->
      postIndex o = i
      /\ exists src,
           nth_error (filter (fun row => JS.truthy (published_url row)) rows) i = Some src
           /\ opp_title o = JS.orEmpty (B src)
           /\ url o = JS.orEmpty (published_url src))
  /\ (exists (rows : list EnhancedExcelRow) (opps : list InternalLinkOpportunity)
             (o : InternalLinkOpportunity) (src : EnhancedExcelRow),
        identifyInternalLinkOpportunities rows = Some opps
        /\ nth_error opps 0 = Some o
        /\ nth_error (filter (fun row => JS.truthy (published_url row)) rows) 0 = Some src
        /\ nth_error rows 1 = Some src
        /\ NoDup rows
        /\ postIndex o = 0).
Proof.
  split.
  - intros rows opps i o H Hi.
    destruct (opportunity_source rows opps i o H Hi) as (src & Hsrc & Hp & Ht & Hu & _).
    split; [exact Hp |]. exists src. auto.
  - exists [Examples.Draft; Examples.Guide; Examples.GuideAgain].
    do 2 eexists. exists Examples.Guide.
    split; [vm_compute; reflexivity |]. repeat split; try reflexivity.
    repeat constructor; simpl; intuition discriminate.
Qed.

Lemma postIndex_is_position_among_published_witness :
  postIndex (mkOpportunity 0 "Tasting Guide" "https://example.com/guide"
                           ["https://example.com/guide"]) = 0
  /\ exists src,
       nth_error (filter (fun row => JS.truthy (published_url row))
                         [Examples.Draft; Examples.Guide; Examples.GuideAgain]) 0 = Some src
       /\ "Tasting Guide" = JS.orEmpty (B src)
       /\ "https://example.com/guide" = JS.orEmpty (published_url src).
Proof.
  apply (proj1 postIndex_is_position_among_published
           [Examples.Draft; Examples.Guide; Examples.GuideAgain]
           [mkOpportunity 0 "Tasting Guide" "https://example.com/guide"
                          ["https://example.com/guide"];
            mkOpportunity 1 "Tasting Guide Updated" "https://example.com/guide"
                          ["https://example.com/guide"]]
           0); reflexivity.
Defined.

(** ** Posts with missing fields *)

(** [calculateSimilarity] reads [toLowerCase] of the keywords and of the
    titles: it raises as soon as one of them is [undefined]. *)
Lemma calculateSimilarity_raises_on_undefined (post1 post2 : Post) :
  keywords post1 = None \/ keywords post2 = None
  \/ title post1 = None \/ title post2 = None ->
  calculateSimilarity post1 post2 = None.
Proof.
  unfold calculateSimilarity, calculateTextSimilarity.
  destruct (keywords post1), (keywords post2), (title post1), (title post2); simpl;
    intros [H | [H | [H | H]]]; congruence.
Qed.

(** The clustering scan replaces missing fields by the empty string and
    never raises. *)
Lemma identifySemanticClusters_returns (rows : list EnhancedExcelRow) :
  exists cs, identifySemanticClusters rows = Some cs.
Proof.
  destruct (identifySemanticClusters_scan rows) as (st & _ & H & _). eauto.
Qed.

(** [findRelatedPublishedPosts] passes the fields as they are: a published
    row without keywords makes the analysis of a sheet raise. *)
Lemma link_opportunities_raise_without_keywords :
  identifyInternalLinkOpportunities [Examples.Guide; Examples.Bare] = None
  /\ analyzeContentHolistically [Examples.Guide; Examples.Bare] = None.
Proof. split; reflexivity. Qed.

(** * Further properties of the parser *)

(** ** Column letters *)

Lemma fromCharCode_code (k : Z) :
  (0 <= k < 256)%Z -> Z.of_nat (nat_of_ascii (JS.fromCharCode k)) = k.
Proof.
  intros H. unfold JS.fromCharCode. rewrite nat_ascii_embedding by lia. lia.
Qed.

Lemma getColumnLetterLoop_stops fuel n acc :
  (n < 0)%Z -> getColumnLetterLoop fuel n acc = acc.
Proof.
  intros H. destruct fuel; simpl; [reflexivity |].
  destruct (0 <=? n)%Z eqn:E; [apply Z.leb_le in E; lia | reflexivity].
Qed.

(** With enough fuel the loop ends on its own test: its result spells
    [n + 1] in front of the letters it started from, is made of upper-case
    letters, and does not change with more fuel. *)
Lemma getColumnLetterLoop_spec fuel :
  forall n acc,
    (-1 <= n)%Z -> Z.to_nat (n + 1) <= fuel ->
    columnValue (getColumnLetterLoop fuel n acc)
    = ((n + 1) * 26 ^ Z.of_nat (String.length acc) + columnValue acc)%Z
    /\ (allChars isUpperLetter acc = true ->
        allChars isUpperLetter (getColumnLetterLoop fuel n acc) = true)
    /\ getColumnLetterLoop (S fuel) n acc = getColumnLetterLoop fuel n acc
    /\ String.length acc <= String.length (getColumnLetterLoop fuel n acc).
Proof.
  induction fuel as [| fuel IH]; intros n acc Hn Hfuel.
  - assert (n = -1)%Z as -> by lia. simpl. repeat split; auto; lia.
  - destruct (Z.lt_ge_cases n 0) as [Hneg | Hpos].
    + assert (n = -1)%Z as -> by lia. simpl. repeat split; auto; lia.
    + pose proof (Z.div_mod n 26 ltac:(lia)) as Hdm.
      pose proof (Z.mod_pos_bound n 26 ltac:(lia)) as Hm.
      assert (0 <= n / 26)%Z as Hq by (apply Z.div_pos; lia).
      assert (n / 26 <= n)%Z as Hle by (apply Z.div_le_upper_bound; lia).
      destruct (IH (n / 26 - 1)%Z
                   (String (JS.fromCharCode (65 + n mod 26)) acc)
                   ltac:(lia) ltac:(lia)) as (Hv & Hu & Hs & Hl).
      change (getColumnLetterLoop (S fuel) n acc)
        with (if (0 <=? n)%Z
              then getColumnLetterLoop fuel (n / 26 - 1)%Z
                     (String (JS.fromCharCode (65 + n mod 26)) acc)
              else acc).
      change (getColumnLetterLoop (S (S fuel)) n acc)
        with (if (0 <=? n)%Z
              then getColumnLetterLoop (S fuel) (n / 26 - 1)%Z
                     (String (JS.fromCharCode (65 + n mod 26)) acc)
              else acc).
      assert ((0 <=? n)%Z = true) as -> by (apply Z.leb_le; lia).
      repeat split.
      * rewrite Hv. cbn [columnValue String.length].
        rewrite fromCharCode_code by lia.
        rewrite Nat2Z.inj_succ, Z.pow_succ_r by lia.
        set (P := (26 ^ Z.of_nat (String.length acc))%Z).
        rewrite Hdm at 3. ring.
      * intros Hacc. apply Hu. cbn [allChars]. rewrite Hacc, andb_true_r.
        unfold isUpperLetter.
        pose proof (fromCharCode_code (65 + n mod 26) ltac:(lia)) as Hc.
        apply andb_true_iff. split; apply Nat.leb_le; lia.
      * exact Hs.
      * cbn [String.length] in Hl. lia.
Qed.

Lemma getColumnLetter_value n : (0 <= n)%Z -> columnValue (getColumnLetter n) = (n + 1)%Z.
Proof.
  intros H. unfold getColumnLetter.
  destruct (getColumnLetterLoop_spec (Z.to_nat (n + 1)) n "" ltac:(lia) (le_n _)) as (Hv & _).
  rewrite Hv. simpl. lia.
Qed.

Lemma getColumnLetter_upper n : allChars isUpperLetter (getColumnLetter n) = true.
Proof.
  destruct (Z.lt_ge_cases n 0) as [Hneg | Hpos].
  - unfold getColumnLetter. now rewrite getColumnLetterLoop_stops.
  - unfold getColumnLetter.
    destruct (getColumnLetterLoop_spec (Z.to_nat (n + 1)) n "" ltac:(lia) (le_n _))
      as (_ & Hu & _). now apply Hu.
Qed.

Lemma getColumnLetterLoop_more_fuel n acc extra fuel :
  (-1 <= n)%Z -> Z.to_nat (n + 1) <= fuel ->
  getColumnLetterLoop (extra + fuel) n acc = getColumnLetterLoop fuel n acc.
Proof.
  intros Hn Hf. induction extra as [| extra IH]; [reflexivity |].
  cbn [Nat.add].
  destruct (getColumnLetterLoop_spec (extra + fuel) n acc Hn ltac:(lia)) as (_ & _ & Hs & _).
  now rewrite Hs.
Qed.

(** X1. [getColumnLetter] returns only upper-case letters A-Z; the result
    is empty exactly for a negative column number; and the loop ends on its
    own test within [columnNumber + 1] rounds, so that running it longer
    changes nothing. *)
Theorem getColumnLetter_letters :
  forall n : Z,
    allChars isUpperLetter (getColumnLetter n) = true
    /\ (getColumnLetter n = "" <-> (n < 0)%Z)
    /\ (forall fuel, Z.to_nat (n + 1) <= fuel ->
                     getColumnLetterLoop fuel n "" = getColumnLetter n).
Proof.
  intros n. split; [apply getColumnLetter_upper |]. split; [split |].
  - intros E. destruct (Z.lt_ge_cases n 0) as [Hneg | Hpos]; [exact Hneg |].
    pose proof (getColumnLetter_value n Hpos) as Hv. rewrite E in Hv. simpl in Hv. lia.
  - intros Hneg. unfold getColumnLetter. now apply getColumnLetterLoop_stops.
  - intros fuel Hfuel. unfold getColumnLetter.
    destruct (Z.lt_ge_cases n 0) as [Hneg | Hpos].
    + now rewrite !getColumnLetterLoop_stops.
    + replace fuel with ((fuel - Z.to_nat (n + 1)) + Z.to_nat (n + 1)) at 1 by lia.
      apply getColumnLetterLoop_more_fuel; lia.
Qed.

(** X2. Distinct column numbers get distinct column letters, so no cell of
    a row is stored under the key of another. *)
Theorem getColumnLetter_injective :
  forall m n : Z,
    (0 <= m)%Z -> (0 <= n)%Z -> m <> n -> getColumnLetter m <> getColumnLetter n.
Proof.
  intros m n Hm Hn Hneq E.
  pose proof (getColumnLetter_value m Hm) as Vm.
  pose proof (getColumnLetter_value n Hn) as Vn.
  rewrite E in Vm. lia.
Qed.

Lemma getColumnLetter_injective_witness :
  (getColumnLetter 25 = "Z" /\ getColumnLetter 26 = "AA")
  /\ getColumnLetter 25 <> getColumnLetter 26.
Proof.
  split; [split; reflexivity |]. apply (getColumnLetter_injective 25 26); lia.
Defined.

Lemma getColumnLetter_value_differs (i j : nat) :
  i <> j -> getColumnLetter (Z.of_nat i) <> getColumnLetter (Z.of_nat j).
Proof.
  intros Hne E.
  pose proof (getColumnLetter_value (Z.of_nat i) ltac:(lia)) as Vi.
  pose proof (getColumnLetter_value (Z.of_nat j) ltac:(lia)) as Vj.
  rewrite E in Vi. lia.
Qed.

(** ** Objects built by the parser *)

Lemma getProp_setProp (obj : JS.Object) (key value key' : string) :
  JS.getProp (JS.setProp obj key value) key'
  = if String.eqb key key' then Some value else JS.getProp obj key'.
Proof.
  induction obj as [| [k v] rest IH]; simpl.
  - reflexivity.
  - destruct (String.eqb k key) eqn:Ek; simpl.
    + apply String.eqb_eq in Ek. subst k. destruct (String.eqb key key'); reflexivity.
    + rewrite IH. destruct (String.eqb k key') eqn:Ek'; [| reflexivity].
      apply String.eqb_eq in Ek'. subst k. now rewrite String.eqb_sym, Ek.
Qed.

Lemma map_fst_indexedFrom {A : Type} (l : list A) (k : nat) :
  map fst (indexedFrom k l) = seq k (List.length l).
Proof. revert k. induction l as [| a l IH]; intros k; simpl; [reflexivity |]. now rewrite IH. Qed.

Lemma nth_error_In_indexed {A : Type} (l : list A) (i : nat) (a : A) :
  nth_error l i = Some a -> In (i, a) (indexed l).
Proof.
  intros H. apply (nth_error_In (indexed l) i). unfold indexed.
  now rewrite nth_error_indexedFrom, H.
Qed.

Section RowData.

Variable numberToString : float -> string.
Variable row : SheetRow.

(** The assignment [headers.forEach] performs for one slot of the header
    row. *)
Let assign (rowData : JS.Object) (ih : nat * option Cell) : JS.Object :=
  match ih with
  | (index, Some header) =>
      JS.setProp rowData (getColumnLetter (Z.of_nat index))
                 (cellText numberToString (cellAt row index))
  | (index, None) => rowData
  end.

Lemma assignments_keep_other_keys (l : list (nat * option Cell)) :
  forall (obj : JS.Object) (key : string),
    (forall j h, In (j, Some h) l -> getColumnLetter (Z.of_nat j) <> key) ->
    JS.getProp (fold_left assign l obj) key = JS.getProp obj key.
Proof.
  induction l as [| [j [h |]] l IH]; intros obj key Hl; simpl.
  - reflexivity.
  - rewrite IH by (intros; eapply Hl; right; eauto).
    rewrite getProp_setProp.
    destruct (String.eqb _ key) eqn:E; [| reflexivity].
    apply String.eqb_eq in E. exfalso. eapply Hl; [left; reflexivity | exact E].
  - apply IH. intros; eapply Hl; right; eauto.
Qed.

Lemma assignments_set_their_key (l : list (nat * option Cell)) :
  forall (obj : JS.Object) (i : nat) (h : Cell),
    NoDup (map fst l) -> In (i, Some h) l ->
    JS.getProp (fold_left assign l obj) (getColumnLetter (Z.of_nat i))
    = Some (cellText numberToString (cellAt row i)).
Proof.
  induction l as [| [j hj] l IH]; intros obj i h Hnd Hin; [contradiction |].
  simpl in Hnd. inversion Hnd as [| ? ? Hnot Hnd']; subst.
  destruct Hin as [E | Hin].
  - inversion E; subst. simpl. rewrite assignments_keep_other_keys.
    + rewrite getProp_setProp. now rewrite String.eqb_refl.
    + intros j' h' Hj' E'. apply Hnot. apply in_map_iff. exists (j', Some h').
      split; [| exact Hj']. simpl.
      destruct (Nat.eq_dec j' i) as [-> | Hne]; [reflexivity |].
      exfalso. apply (getColumnLetter_value_differs j' i); [lia | exact E'].
  - simpl. now apply (IH _ i h).
Qed.

Lemma assignments_only_set_column_letters (l : list (nat * option Cell)) :
  forall (obj : JS.Object) (key value : string),
    JS.getProp (fold_left assign l obj) key = Some value ->
    JS.getProp obj key = Some value
    \/ exists i h, In (i, Some h) l /\ key = getColumnLetter (Z.of_nat i).
Proof.
  induction l as [| [j [h |]] l IH]; intros obj key value H; simpl in H.
  - now left.
  - destruct (IH _ _ _ H) as [H' | (i & h' & Hin & E)].
    + rewrite getProp_setProp in H'.
      destruct (String.eqb _ key) eqn:Ek.
      * right. exists j, h. split; [now left |]. apply String.eqb_eq in Ek. now symmetry.
      * now left.
    + right. exists i, h'. split; [now right | exact E].
  - destruct (IH _ _ _ H) as [H' | (i & h' & Hin & E)]; [now left |].
    right. exists i, h'. split; [now right | exact E].
Qed.

End RowData.

Lemma indexed_NoDup {A : Type} (l : list A) : NoDup (map fst (indexed l)).
Proof. unfold indexed. rewrite map_fst_indexedFrom. apply seq_NoDup. Qed.

Lemma column_letter_is_not_published_url (i : nat) :
  getColumnLetter (Z.of_nat i) <> "published_url".
Proof.
  intros E. pose proof (getColumnLetter_upper (Z.of_nat i)) as H.
  rewrite E in H. discriminate H.
Qed.

Lemma row_object_has_no_published_url numberToString (headers row : SheetRow) :
  JS.getProp (buildRowData numberToString headers row) "published_url" = None.
Proof.
  unfold buildRowData. rewrite (assignments_keep_other_keys numberToString row); [reflexivity |].
  intros j h _. apply column_letter_is_not_published_url.
Qed.

Lemma indexedFrom_len {A : Type} (l : list A) (k : nat) :
  List.length (indexedFrom k l) = List.length l.
Proof. revert k. induction l as [| a l IH]; intros k; simpl; auto. Qed.

(** X3. The object built for a data row has one property per filled slot
    of the header row, named by the column letter of the slot and holding
    the text of the row's cell at that position (the empty string for a
    missing or falsy cell); it has no other property of its own, so cells
    beyond the header row are dropped, and [published_url] is never set. *)
Theorem row_object_properties :
  forall (numberToString : float -> string) (headers row : SheetRow),
    (forall i h,
        nth_error headers i = Some (Some h) ->
        JS.getProp (buildRowData numberToString headers row) (getColumnLetter (Z.of_nat i))
        = Some (cellText numberToString (cellAt row i)))
    /\ (forall key value,
           JS.getProp (buildRowData numberToString headers row) key = Some value ->
           exists i h,
             nth_error headers i = Some (Some h) /\ key = getColumnLetter (Z.of_nat i))
    /\ JS.getProp (buildRowData numberToString headers row) "published_url" = None
    /\ (forall i, List.length row <= i -> cellText numberToString (cellAt row i) = "").
Proof.
  intros numberToString headers row. unfold buildRowData. repeat split.
  - intros i h Hi.
    apply (assignments_set_their_key numberToString row (indexed headers) [] i h).
    + apply indexed_NoDup.
    + now apply nth_error_In_indexed.
  - intros key value H.
    destruct (assignments_only_set_column_letters numberToString row _ _ _ _ H)
      as [H' | (i & h & Hin & E)]; [discriminate H' |].
    exists i, h. split; [now apply In_indexed | exact E].
  - apply row_object_has_no_published_url.
  - intros i Hi. unfold cellAt. apply nth_error_None in Hi. now rewrite Hi.
Qed.

(** ** The analysis of a parsed sheet *)

Lemma filter_nil_when_none {A : Type} (f : A -> bool) (l : list A) :
  (forall a, In a l -> f a = false) -> filter f l = [].
Proof.
  induction l as [| a l IH]; intros H; simpl; [reflexivity |].
  rewrite (H a) by now left. apply IH. intros b Hb. apply H. now right.
Qed.

(** Without a published row there is no link opportunity, and the analysis
    returns. *)
Lemma analysis_without_published_rows (rows : list EnhancedExcelRow) :
  (forall r, In r rows -> published_url r = None) ->
  exists result,
    analyzeContentHolistically rows = Some result
    /\ totalPosts result = List.length rows
    /\ publishedPosts result = 0
    /\ linkOpportunities result = [].
Proof.
  intros H.
  assert (filter (fun r => JS.truthy (published_url r)) rows = []) as Hf.
  { apply filter_nil_when_none. intros r Hr. now rewrite (H r Hr). }
  destruct (identifySemanticClusters_scan rows) as (st & _ & Hcs & _).
  unfold analyzeContentHolistically, identifyInternalLinkOpportunities.
  rewrite Hcs, Hf. simpl. eexists. repeat split.
Qed.

(** X4. Parsing throws "No sheets found" without a first sheet and asks
    for a header row and a data row when the sheet has fewer than two rows.
    Otherwise it returns, never with a [TypeError]: one object per row after
    the header row, and an analysis that counts these rows, finds none of
    them published and suggests no internal link, whatever the cells hold. *)
Theorem parseFileWithAnalysis_outcome :
  forall (numberToString : float -> string) (firstSheet : option (list SheetRow)),
    match firstSheet with
    | None =>
        parseFileWithAnalysis numberToString firstSheet
        = ThrownError "No sheets found in the Excel file"
    | Some data =>
        if List.length data <? 2
        then parseFileWithAnalysis numberToString firstSheet
             = ThrownError "Excel file must have at least a header row and one data row"
        else exists rows fullAnalysis,
               parseFileWithAnalysis numberToString firstSheet
               = Returned (rows, fullAnalysis)
               /\ rows = map (buildRowData numberToString (hd [] data)) (tl data)
               /\ List.length rows = List.length data - 1
               /\ totalPosts fullAnalysis = List.length rows
               /\ publishedPosts fullAnalysis = 0
               /\ linkOpportunities fullAnalysis = []
    end.
Proof.
  intros numberToString [data |]; [| reflexivity].
  unfold parseFileWithAnalysis. destruct (List.length data <? 2) eqn:El; [reflexivity |].
  set (rows := map (buildRowData numberToString (hd [] data)) (tl data)).
  destruct (analysis_without_published_rows
              (map (fun ir => asRow (fst ir) (snd ir)) (indexed rows)))
    as (result & Hr & Ht & Hp & Hl).
  { intros r Hr. apply in_map_iff in Hr. destruct Hr as ([i obj] & <- & Hin).
    apply In_indexed, nth_error_In in Hin. subst rows.
    apply in_map_iff in Hin. destruct Hin as (row & <- & _). simpl.
    apply row_object_has_no_published_url. }
  rewrite Hr. exists rows, result. repeat split; auto.
  - subst rows. rewrite length_map. destruct data; simpl; lia.
  - rewrite Ht, length_map. unfold indexed. apply indexedFrom_len.
Qed.

(** ** Themes *)

Lemma prefix_spec (sub s : string) :
  String.prefix sub s = true <-> exists b, s = (sub ++ b)%string.
Proof.
  revert s. induction sub as [| c sub IH]; intros s.
  - split; [intros _; now exists s | intros _; destruct s; reflexivity].
  - destruct s as [| d s]; simpl; [split; [discriminate | intros [b E]; discriminate E] |].
    destruct (ascii_dec c d) as [-> | Hne].
    + rewrite IH. split; intros [b E]; exists b; [now rewrite E | now inversion E].
    + split; [discriminate |]. intros [b E]. inversion E. congruence.
Qed.

Lemma includesStr_spec (s sub : string) : JS.includesStr s sub = true <-> occursIn sub s.
Proof.
  unfold occursIn. induction s as [| c s IH].
  - cbn [JS.includesStr]. destruct (String.prefix sub "") eqn:E.
    + split; [intros _ | reflexivity]. apply prefix_spec in E. destruct E as [b E].
      now exists "", b.
    + split; [discriminate |]. intros (a & b & H).
      destruct a; simpl in H; [| discriminate H].
      assert (String.prefix sub "" = true) as E' by (apply prefix_spec; now exists b).
      congruence.
  - cbn [JS.includesStr]. destruct (String.prefix sub (String c s)) eqn:E.
    + split; [intros _ | reflexivity]. apply prefix_spec in E. destruct E as [b E].
      now exists "", b.
    + rewrite IH. split.
      * intros (a & b & ->). now exists (String c a), b.
      * intros (a & b & H). destruct a as [| d a]; simpl in H.
        -- assert (String.prefix sub (String c s) = true) as E'
             by (apply prefix_spec; now exists b).
           congruence.
        -- inversion H. now exists a, b.
Qed.

Lemma find_first {A : Type} (f : A -> bool) (l : list A) (x : A) :
  find f l = Some x ->
  exists before after,
    l = before ++ x :: after /\ f x = true /\ forall y, In y before -> f y = false.
Proof.
  induction l as [| a l IH]; simpl; [discriminate |].
  destruct (f a) eqn:E.
  - intros H. inversion H; subst. exists [], l. repeat split; auto. intros y [].
  - intros H. destruct (IH H) as (before & after & -> & Hx & Hb).
    exists (a :: before), after. repeat split; auto.
    intros y [<- | Hy]; auto.
Qed.

(** X5. [extractTheme] returns the first theme of the fixed list, in list
    order, that occurs in the lower-cased text "title keywords"; it returns
    "General" exactly when none of them occurs. *)
Theorem extractTheme_first_match :
  forall title keywords : string,
    let text := JS.toLowerCase (title ++ " " ++ keywords) in
    (extractTheme title keywords = "General"
     /\ forall theme, In theme commonThemes -> ~ occursIn theme text)
    \/ (exists before after,
          commonThemes = before ++ extractTheme title keywords :: after
          /\ occursIn (extractTheme title keywords) text
          /\ forall theme, In theme before -> ~ occursIn theme text).
Proof.
  intros title keywords text. unfold extractTheme. fold text.
  destruct (find (fun theme => JS.includesStr text theme) commonThemes) as [theme |] eqn:E.
  - right. destruct (find_first _ _ _ E) as (before & after & Hl & Hx & Hb).
    exists before, after. repeat split; auto.
    + now apply includesStr_spec.
    + intros t Ht Hocc. apply includesStr_spec in Hocc. rewrite (Hb t Ht) in Hocc.
      discriminate Hocc.
  - left. split; [reflexivity |]. intros theme Hin Hocc.
    apply includesStr_spec in Hocc.
    rewrite (find_none _ _ E theme Hin) in Hocc. discriminate Hocc.
Qed.

Lemma toLowerCase_app (a b : string) :
  JS.toLowerCase (a ++ b) = (JS.toLowerCase a ++ JS.toLowerCase b)%string.
Proof. induction a as [| c a IH]; simpl; [reflexivity | now rewrite IH]. Qed.

(** X6. The theme does not depend on letter case: two titles and two
    keyword strings with the same lower-case forms get the same theme. *)
Theorem extractTheme_ignores_case :
  forall title1 keywords1 title2 keywords2 : string,
    JS.toLowerCase title1 = JS.toLowerCase title2 ->
    JS.toLowerCase keywords1 = JS.toLowerCase keywords2 ->
    extractTheme title1 keywords1 = extractTheme title2 keywords2.
Proof.
  intros title1 keywords1 title2 keywords2 Ht Hk. unfold extractTheme.
  now rewrite !toLowerCase_app, Ht, Hk.
Qed.

Lemma extractTheme_ignores_case_witness :
  extractTheme "HARVEST Dinner" "Events, WEDDING" = extractTheme "harvest dinner" "events, wedding"
  /\ extractTheme "harvest dinner" "events, wedding" = "wedding".
Proof.
  split; [| reflexivity].
  apply (extractTheme_ignores_case "HARVEST Dinner" "Events, WEDDING"
                                   "harvest dinner" "events, wedding"); reflexivity.
Defined.

(** ** Anchor texts *)

Lemma length_app_string (a b : string) :
  String.length (a ++ b) = String.length a + String.length b.
Proof. induction a as [| c a IH]; simpl; [reflexivity | now rewrite IH]. Qed.

Lemma length_substring_0 (n : nat) :
  forall s, n <= String.length s -> String.length (String.substring 0 n s) = n.
Proof.
  induction n as [| n IH]; intros s H.
  - destruct s; reflexivity.
  - destruct s as [| c s]; simpl in *; [lia |]. rewrite IH; lia.
Qed.

Lemma substring_0_prefix (n : nat) :
  forall s, String.prefix (String.substring 0 n s) s = true.
Proof.
  induction n as [| n IH]; intros s.
  - destruct s; reflexivity.
  - destruct s as [| c s]; simpl; [reflexivity |].
    destruct (ascii_dec c c); [apply IH | congruence].
Qed.

Lemma anchor_text_at_most_50 (title : string) :
  String.length (generateAnchorText title) <= 50.
Proof.
  unfold generateAnchorText. destruct (50 <? String.length title) eqn:E.
  - apply Nat.ltb_lt in E. rewrite length_app_string, length_substring_0 by lia. simpl. lia.
  - now apply Nat.ltb_ge in E.
Qed.

(** X7. An anchor text never has more than 50 characters: a title of at
    most 50 characters is kept as it is, and a longer one becomes its first
    47 characters followed by three dots, 50 characters in all. *)
Theorem generateAnchorText_length :
  forall title : string,
    String.length (generateAnchorText title) <= 50
    /\ (String.length title <= 50 -> generateAnchorText title = title)
    /\ (50 < String.length title ->
        generateAnchorText title = (String.substring 0 47 title ++ "...")%string
        /\ String.length (generateAnchorText title) = 50
        /\ String.prefix (String.substring 0 47 title) title = true).
Proof.
  intros title. unfold generateAnchorText.
  destruct (50 <? String.length title) eqn:E.
  - apply Nat.ltb_lt in E.
    assert (String.length (String.substring 0 47 title ++ "...") = 50) as Hl.
    { rewrite length_app_string, length_substring_0 by lia. reflexivity. }
    repeat split; try lia; auto. apply substring_0_prefix.
  - apply Nat.ltb_ge in E. repeat split; try lia; auto.
Qed.

(** ** Pillar distribution *)

Lemma countOf_increment (d : Distribution) (pillar label : string) :
  countOf (increment d pillar) label
  = if String.eqb pillar label then countOf d label + 1 else countOf d label.
Proof.
  induction d as [| [k n] rest IH]; simpl.
  - destruct (String.eqb pillar label); reflexivity.
  - destruct (String.eqb k pillar) eqn:Ek; simpl.
    + apply String.eqb_eq in Ek. subst k. destruct (String.eqb pillar label); reflexivity.
    + rewrite IH. destruct (String.eqb k label) eqn:Ekl; [| reflexivity].
      apply String.eqb_eq in Ekl. subst k. now rewrite String.eqb_sym, Ek.
Qed.

Lemma totalCount_increment (d : Distribution) (pillar : string) :
  totalCount (increment d pillar) = totalCount d + 1.
Proof.
  induction d as [| [k n] rest IH]; simpl; [reflexivity |].
  destruct (String.eqb k pillar); simpl; [lia | rewrite IH; lia].
Qed.

Lemma keys_increment (d : Distribution) (pillar key : string) :
  In key (map fst (increment d pillar)) <-> key = pillar \/ In key (map fst d).
Proof.
  induction d as [| [k n] rest IH]; simpl.
  - intuition auto.
  - destruct (String.eqb k pillar) eqn:Ek; simpl.
    + apply String.eqb_eq in Ek. subst k. intuition auto.
    + rewrite IH. intuition auto.
Qed.

Lemma NoDup_increment (d : Distribution) (pillar : string) :
  NoDup (map fst d) -> NoDup (map fst (increment d pillar)).
Proof.
  induction d as [| [k n] rest IH]; simpl; intros H.
  - constructor; [intros [] | constructor].
  - inversion H as [| ? ? Hnot Hnd]; subst.
    destruct (String.eqb k pillar) eqn:Ek; simpl.
    + now constructor.
    + constructor; [| now apply IH]. rewrite keys_increment. intros [-> | Hin]; [| tauto].
      now rewrite String.eqb_refl in Ek.
Qed.

Lemma positive_increment (d : Distribution) (pillar : string) :
  Forall (fun e => 1 <= snd e) d -> Forall (fun e => 1 <= snd e) (increment d pillar).
Proof.
  induction d as [| [k n] rest IH]; simpl; intros H.
  - repeat constructor.
  - inversion H; subst. destruct (String.eqb k pillar); constructor; simpl in *; auto; lia.
Qed.

(** The distribution reached from [d] after counting [rows]. *)
Lemma distribution_from (rows : list EnhancedExcelRow) :
  forall d : Distribution,
    let d' := fold_left (fun distribution row => increment distribution (pillarOf row)) rows d in
    (forall label, countOf d' label = countOf d label + rowsWith label rows)
    /\ totalCount d' = totalCount d + List.length rows
    /\ (NoDup (map fst d) -> NoDup (map fst d'))
    /\ (Forall (fun e => 1 <= snd e) d -> Forall (fun e => 1 <= snd e) d').
Proof.
  induction rows as [| row rows IH]; intros d; simpl.
  - unfold rowsWith. simpl. repeat split; auto; intros; lia.
  - destruct (IH (increment d (pillarOf row))) as (Hc & Ht & Hn & Hp).
    repeat split.
    + intros label. rewrite Hc, countOf_increment. unfold rowsWith. simpl.
      destruct (String.eqb (pillarOf row) label); simpl; lia.
    + rewrite Ht, totalCount_increment. lia.
    + intros H. now apply Hn, NoDup_increment.
    + intros H. now apply Hp, positive_increment.
Qed.

Lemma countOf_entry (d : Distribution) (label : string) (n : nat) :
  NoDup (map fst d) -> In (label, n) d -> countOf d label = n.
Proof.
  induction d as [| [k m] rest IH]; simpl; intros Hnd Hin; [contradiction |].
  inversion Hnd as [| ? ? Hnot Hnd']; subst. destruct Hin as [E | Hin].
  - inversion E; subst. now rewrite String.eqb_refl.
  - destruct (String.eqb k label) eqn:Ek; [| now apply IH].
    apply String.eqb_eq in Ek. subst k. exfalso. apply Hnot.
    apply in_map_iff. now exists (label, n).
Qed.

Lemma analyzePillarDistribution_facts (rows : list EnhancedExcelRow) :
  (forall label, countOf (analyzePillarDistribution rows) label = rowsWith label rows)
  /\ totalCount (analyzePillarDistribution rows) = List.length rows
  /\ NoDup (map fst (analyzePillarDistribution rows))
  /\ Forall (fun e => 1 <= snd e) (analyzePillarDistribution rows).
Proof.
  destruct (distribution_from rows []) as (Hc & Ht & Hn & Hp). repeat split.
  - intros label. apply Hc.
  - apply Ht.
  - apply Hn. constructor.
  - apply Hp. constructor.
Qed.

(** X8. In the pillar distribution every entry pairs a label with the
    number of rows counted under it, which is at least one; a label that no
    row carries has no entry. Rows without a pillar are counted under
    "Unknown", together with the rows whose pillar is the text "Unknown". *)
Theorem pillar_counts_are_row_counts :
  forall (rows : list EnhancedExcelRow) (label : string),
    countOf (analyzePillarDistribution rows) label = rowsWith label rows
    /\ (forall n, In (label, n) (analyzePillarDistribution rows) ->
                  n = rowsWith label rows /\ 1 <= n)
    /\ (rowsWith label rows = 0 -> ~ In label (map fst (analyzePillarDistribution rows)))
    /\ rowsWith "Unknown" rows
       = List.length (filter (fun row =>
                                negb (JS.truthy (D row))
                                || String.eqb (JS.orEmpty (D row)) "Unknown") rows).
Proof.
  intros rows label.
  destruct (analyzePillarDistribution_facts rows) as (Hc & _ & Hn & Hp).
  split; [apply Hc |]. split; [| split].
  - intros n Hin. rewrite <- Hc. rewrite (countOf_entry _ _ _ Hn Hin). split; [reflexivity |].
    rewrite Forall_forall in Hp. exact (Hp _ Hin).
  - intros Hz Hin. apply in_map_iff in Hin. destruct Hin as ([k n] & E & Hin).
    simpl in E. subst k. rewrite Forall_forall in Hp. pose proof (Hp _ Hin) as H1.
    simpl in H1. rewrite <- Hc, (countOf_entry _ _ _ Hn Hin) in Hz. lia.
  - unfold rowsWith. f_equal. apply filter_ext. intros row. unfold pillarOf.
    destruct (D row) as [s |]; simpl; [| reflexivity].
    destruct (String.eqb s "") eqn:E; simpl; [| reflexivity].
    apply String.eqb_eq in E. now subst s.
Qed.

(** X9. No label occurs twice in the pillar distribution, and its counts
    add up to the number of rows. *)
Theorem pillar_counts_add_up :
  forall rows : list EnhancedExcelRow,
    NoDup (map fst (analyzePillarDistribution rows))
    /\ totalCount (analyzePillarDistribution rows) = List.length rows.
Proof.
  intros rows. destruct (analyzePillarDistribution_facts rows) as (_ & Ht & Hn & _). auto.
Qed.

(** ** Content gaps *)

Lemma NoDup_map_filter {A B : Type} (g : A -> B) (f : A -> bool) (l : list A) :
  NoDup (map g l) -> NoDup (map g (filter f l)).
Proof.
  induction l as [| a l IH]; simpl; intros H; [constructor |].
  inversion H as [| ? ? Hnot Hnd]; subst.
  destruct (f a); simpl; [| now apply IH].
  constructor; [| now apply IH].
  intros Hin. apply Hnot. apply in_map_iff in Hin. destruct Hin as (x & E & Hx).
  apply filter_In in Hx. apply in_map_iff. exists x. tauto.
Qed.

(** X10. [identifyContentGaps] reports a pillar at most once, and only a
    pillar that some row is counted under: its [currentCount] is the number
    of those rows, its [suggestedCount] is the rounded-up fifth of the
    number of rows, the same in every entry, and its [gap] is the positive
    difference of the two. *)
Theorem content_gaps_are_counted_pillars :
  forall rows : list EnhancedExcelRow,
    NoDup (map gap_pillar (identifyContentGaps rows))
    /\ Forall (fun g =>
                 currentCount g = rowsWith (gap_pillar g) rows
                 /\ 1 <= currentCount g
                 /\ suggestedCount g = JS.Math_ceil (JS.num (List.length rows) * 0.2)
                 /\ gap g = JS.Math_max 0 (suggestedCount g - JS.num (currentCount g))
                 /\ (0 <? gap g)%float = true)
              (identifyContentGaps rows).
Proof.
  intros rows. destruct (analyzePillarDistribution_facts rows) as (Hc & _ & Hn & Hp).
  unfold identifyContentGaps.
  set (mk := fun '(pillar, count) =>
               mkGap pillar count (JS.Math_ceil (JS.num (List.length rows) * 0.2))
                     (JS.Math_max 0 (JS.Math_ceil (JS.num (List.length rows) * 0.2)
                                     - JS.num count))).
  split.
  - apply NoDup_map_filter. rewrite map_map.
    rewrite (map_ext _ fst); [exact Hn |]. intros [k n]. reflexivity.
  - apply Forall_forall. intros g Hg. apply filter_In in Hg. destruct Hg as [Hg Hpos].
    apply in_map_iff in Hg. destruct Hg as ([k n] & <- & Hin). simpl.
    rewrite Forall_forall in Hp. pose proof (Hp _ Hin) as H1. simpl in H1.
    rewrite <- Hc, (countOf_entry _ _ _ Hn Hin). auto.
Qed.

(** ** The analysis as a whole *)

Lemma mapM_length {A B : Type} (f : A -> option B) (l : list A) (r : list B) :
  mapM f l = Some r -> List.length r = List.length l.
Proof.
  revert r. induction l as [| a l IH]; intros r H; simpl in H.
  - now inversion H.
  - destruct (f a); simpl in H; [| discriminate H].
    destruct (mapM f l) as [bs |]; simpl in H; [| discriminate H].
    inversion H; subst. simpl. now rewrite (IH bs).
Qed.

Lemma mapM_None {A B : Type} (f : A -> option B) (l : list A) :
  mapM f l = None <-> exists a, In a l /\ f a = None.
Proof.
  induction l as [| a l IH]; simpl.
  - split; [discriminate | intros (a & [] & _)].
  - destruct (f a) as [b |] eqn:E; simpl.
    + destruct (mapM f l) as [bs |]; simpl.
      * split; [discriminate |]. intros (x & [<- | Hx] & Hf); [congruence |].
        destruct IH as [_ IH']. specialize (IH' (ex_intro _ x (conj Hx Hf))). discriminate IH'.
      * split; [intros _ | reflexivity].
        destruct IH as [IH' _]. destruct (IH' eq_refl) as (x & Hx & Hf). eauto.
    + split; [intros _; eauto | reflexivity].
Qed.

Lemma filterM_None {A : Type} (f : A -> option bool) (l : list A) :
  filterM f l = None <-> exists a, In a l /\ f a = None.
Proof.
  induction l as [| a l IH]; simpl.
  - split; [discriminate | intros (a & [] & _)].
  - destruct (f a) as [b |] eqn:E; simpl.
    + destruct (filterM f l) as [r |]; simpl.
      * split; [discriminate |]. intros (x & [<- | Hx] & Hf); [congruence |].
        destruct IH as [_ IH']. specialize (IH' (ex_intro _ x (conj Hx Hf))). discriminate IH'.
      * split; [intros _ | reflexivity].
        destruct IH as [IH' _]. destruct (IH' eq_refl) as (x & Hx & Hf). eauto.
    + split; [intros _; eauto | reflexivity].
Qed.

(** X11. When the analysis returns, [totalPosts] is the number of rows,
    [publishedPosts] counts the rows with a published URL and is at most
    [totalPosts], there is one link opportunity per published row, and the
    counts of the pillar distribution add up to [totalPosts]. *)
Theorem analysis_counts_agree :
  forall (rows : list EnhancedExcelRow) (result : ContentAnalysisResult),
    analyzeContentHolistically rows = Some result ->
    totalPosts result = List.length rows
    /\ publishedPosts result
       = List.length (filter (fun row => JS.truthy (published_url row)) rows)
    /\ publishedPosts result <= totalPosts result
    /\ List.length (linkOpportunities result) = publishedPosts result
    /\ totalCount (pillarDistribution result) = totalPosts result.
Proof.
  intros rows result. unfold analyzeContentHolistically.
  destruct (identifySemanticClusters rows) as [cs |]; cbn [bind]; [| discriminate].
  destruct (identifyInternalLinkOpportunities rows) as [opps |] eqn:Eo; cbn [bind];
    [| discriminate].
  intros H. injection H as <-. cbn [totalPosts publishedPosts linkOpportunities pillarDistribution].
  repeat split.
  - apply filter_length_le.
  - unfold identifyInternalLinkOpportunities in Eo. apply mapM_length in Eo.
    rewrite Eo. unfold indexed. apply indexedFrom_len.
  - apply (analyzePillarDistribution_facts rows).
Qed.

Lemma analysis_counts_agree_witness :
  exists result,
    analyzeContentHolistically [Examples.Draft; Examples.Guide; Examples.GuideAgain]
    = Some result
    /\ totalPosts result = 3
    /\ publishedPosts result = 2
    /\ List.length (linkOpportunities result) = publishedPosts result
    /\ totalCount (pillarDistribution result) = totalPosts result.
Proof.
  eexists. split; [vm_compute; reflexivity |].
  split; [reflexivity |]. split; [reflexivity |].
  eapply (analysis_counts_agree [Examples.Draft; Examples.Guide; Examples.GuideAgain]).
  vm_compute. reflexivity.
Defined.

Lemma calculateSimilarity_None (post1 post2 : Post) :
  calculateSimilarity post1 post2 = None
  <-> keywords post1 = None \/ keywords post2 = None
      \/ title post1 = None \/ title post2 = None.
Proof.
  split; [| apply calculateSimilarity_raises_on_undefined].
  destruct post1 as [[t1 |] [k1 |] p1], post2 as [[t2 |] [k2 |] p2]; simpl; auto.
  rewrite calculateSimilarity_terms. discriminate.
Qed.

Lemma findRelatedPublishedPosts_None (currentRow : EnhancedExcelRow)
    (allRows : list EnhancedExcelRow) :
  findRelatedPublishedPosts currentRow allRows = None
  <-> exists other,
        In other (otherPublished currentRow allRows)
        /\ calculateSimilarity (rawPost currentRow) (rawPost other) = None.
Proof.
  unfold findRelatedPublishedPosts. fold (otherPublished currentRow allRows).
  destruct (filterM _ (otherPublished currentRow allRows)) as [related |] eqn:E; cbn [bind].
  - split; [discriminate |]. intros (other & Hin & Hnone).
    assert (filterM (fun row =>
                       similarity <- calculateSimilarity (rawPost currentRow) (rawPost row) ;;
                       Some (0.2 <? similarity)%float)
                    (otherPublished currentRow allRows) = None) as H.
    { apply filterM_None. exists other. split; [exact Hin |]. now rewrite Hnone. }
    unfold rawPost in H. congruence.
  - split; [intros _ | reflexivity].
    apply filterM_None in E. destruct E as (other & Hin & Hf). exists other.
    split; [exact Hin |]. unfold rawPost.
    destruct (calculateSimilarity _ _); [discriminate Hf | reflexivity].
Qed.

(** X12. The analysis raises a [TypeError] exactly when the list holds two
    distinct published row objects one of which has no title ([B]) or no
    keywords ([C]): [findRelatedPublishedPosts] passes these fields without
    a default. A list with at most one published row never raises. *)
Theorem analysis_raises_exactly_on_bare_published_rows :
  forall rows : list EnhancedExcelRow,
    analyzeContentHolistically rows = None
    <-> exists current other,
          In current rows /\ In other rows
          /\ JS.truthy (published_url current) = true
          /\ JS.truthy (published_url other) = true
          /\ ref other <> ref current
          /\ (B current = None \/ C current = None \/ B other = None \/ C other = None).
Proof.
  intros rows.
  assert (analyzeContentHolistically rows = None
          <-> identifyInternalLinkOpportunities rows = None) as ->.
  { unfold analyzeContentHolistically.
    destruct (identifySemanticClusters_scan rows) as (st & _ & -> & _). cbn [bind].
    destruct (identifyInternalLinkOpportunities rows); cbn [bind];
      split; congruence. }
  unfold identifyInternalLinkOpportunities. rewrite mapM_None. split.
  - intros ([i current] & Hin & Hf). cbv beta iota in Hf.
    apply In_indexed, nth_error_In, filter_In in Hin. destruct Hin as [Hin Hpub].
    destruct (findRelatedPublishedPosts current rows) as [links |] eqn:E;
      [discriminate Hf |].
    apply findRelatedPublishedPosts_None in E. destruct E as (other & Ho & Hnone).
    apply In_otherPublished in Ho. destruct Ho as (Hino & Hpubo & Href).
    apply calculateSimilarity_None in Hnone. unfold rawPost in Hnone. simpl in Hnone.
    exists current, other. repeat split; auto. tauto.
  - intros (current & other & Hin & Hino & Hpub & Hpubo & Href & Hbare).
    assert (In current (filter (fun row => JS.truthy (published_url row)) rows)) as Hf
      by (apply filter_In; auto).
    apply In_nth_error in Hf. destruct Hf as [i Hi].
    exists (i, current). split; [now apply nth_error_In_indexed |].
    assert (findRelatedPublishedPosts current rows = None) as ->; [| reflexivity].
    apply findRelatedPublishedPosts_None. exists other. split.
    + unfold otherPublished. apply filter_In. split; [exact Hino |].
      rewrite Hpubo. simpl. apply negb_true_iff, Nat.eqb_neq. exact Href.
    + apply calculateSimilarity_None. unfold rawPost. simpl. tauto.
Qed.

(** ** Shape and order of the clusters *)

Lemma clusterStep_new_cluster rows clusters processed index row st' :
  clusterStep rows (clusters, processed) (index, row) = Some st' ->
  st' = (clusters, processed)
  \/ (has processed index = false
      /\ exists c,
           st' = (clusters ++ [c],
                  fold_left (fun p post => add p (SimilarPost.index post)) (relatedPosts c)
                            (add processed index))
           /\ mainPost c = MainPost.mk index row
           /\ relatedPosts c = nonNull (map (candidate processed index row) (indexed rows))
           /\ relatedPosts c <> []
           /\ clusterShape (List.length clusters) c).
Proof.
  unfold clusterStep. destruct (has processed index) eqn:Eh.
  - intros H. inversion H. now left.
  - rewrite similarPostsOf_eq. cbn [bind].
    destruct (0 <? List.length _) eqn:El; intros H; inversion H; [| now left].
    right. split; [reflexivity |].
    match goal with |- exists c, (_ ++ [?x], _) = _ /\ _ => exists x end.
    unfold clusterShape. cbn [mainPost relatedPosts id theme internalLinkOpportunities
                               MainPost.row MainPost.index].
    repeat split. intros E. rewrite E in El. discriminate El.
Qed.

Lemma clusterStep_scanShape rows st ir st' :
  scanShape st -> clusterStep rows st ir = Some st' -> scanShape st'.
Proof.
  destruct st as [clusters processed], ir as [index row]. intros (Hshape & Hproc) Hstep.
  simpl in Hshape, Hproc. apply clusterStep_new_cluster in Hstep.
  destruct Hstep as [-> | (_ & c & -> & Hmain & _ & _ & Hc)]; [split; assumption |].
  split; simpl.
  - intros k c' Hk. destruct (Nat.lt_ge_cases k (List.length clusters)) as [Hlt | Hge].
    + rewrite nth_error_app1 in Hk by exact Hlt. now apply Hshape.
    + rewrite nth_error_app2 in Hk by exact Hge.
      destruct (k - List.length clusters) as [| d] eqn:Ed; simpl in Hk.
      * inversion Hk; subst. replace k with (List.length clusters) by lia. exact Hc.
      * destruct d; discriminate Hk.
  - intros i Hi. apply has_fold_add in Hi. rewrite has_add in Hi.
    destruct Hi as [Hi | Hi].
    + apply orb_true_iff in Hi. destruct Hi as [Hi | Hi].
      * apply Nat.eqb_eq in Hi. subst i. exists c. split; [apply in_or_app; right; now left |].
        unfold clusterIndices. rewrite Hmain. now left.
      * destruct (Hproc i Hi) as (c' & Hc' & Hin). exists c'.
        split; [apply in_or_app; now left | exact Hin].
    + exists c. split; [apply in_or_app; right; now left |].
      unfold clusterIndices. now right.
Qed.

Lemma scanShape_initial : scanShape ([], []).
Proof.
  split; simpl.
  - intros k c H. destruct k; discriminate H.
  - intros i H. discriminate H.
Qed.

Lemma foldM_scanShape rows l st st' :
  scanShape st -> foldM (clusterStep rows) l st = Some st' -> scanShape st'.
Proof.
  apply foldM_invariant. intros s a s' _ Hs Hstep. exact (clusterStep_scanShape rows s a s' Hs Hstep).
Qed.

Lemma StronglySorted_snoc (l : list nat) (a : nat) :
  StronglySorted lt l -> Forall (fun x => x < a) l -> StronglySorted lt (l ++ [a]).
Proof.
  induction 1 as [| x l Hs IH Hall]; intros Hlt; simpl.
  - repeat constructor.
  - inversion Hlt; subst. constructor; [now apply IH |].
    apply Forall_app. split; [exact Hall | repeat constructor; assumption].
Qed.

(** The anchors of the clusters increase along the scan. *)
Lemma foldM_anchors_increase rows (l : list EnhancedExcelRow) :
  forall k st st',
    StronglySorted lt (map (fun c => MainPost.index (mainPost c)) (fst st)) ->
    Forall (fun x => x < k) (map (fun c => MainPost.index (mainPost c)) (fst st)) ->
    foldM (clusterStep rows) (indexedFrom k l) st = Some st' ->
    StronglySorted lt (map (fun c => MainPost.index (mainPost c)) (fst st')).
Proof.
  induction l as [| row l IH]; intros k st st' Hs Hk H; simpl in H.
  - now inversion H; subst.
  - destruct (clusterStep rows st (k, row)) as [s1 |] eqn:E; cbn [bind] in H;
      [| discriminate H].
    destruct st as [clusters processed].
    apply clusterStep_new_cluster in E.
    destruct E as [-> | (_ & c & -> & Hmain & _)].
    + apply (IH (S k) (clusters, processed) st' Hs); [| exact H].
      eapply Forall_impl; [| exact Hk]. intros; simpl in *; lia.
    + simpl in Hs, Hk.
      refine (IH (S k) _ st' _ _ H); simpl; rewrite map_app; simpl; rewrite Hmain; simpl.
      * now apply StronglySorted_snoc.
      * apply Forall_app. split; [| repeat constructor].
        eapply Forall_impl; [| exact Hk]. intros; simpl in *; lia.
Qed.

(** X13. The clusters are returned in the order of their anchors, each
    anchored at a later row than the one before, and they are numbered in
    that order: the cluster at position [k] has the id "cluster-k". *)
Theorem clusters_are_numbered_in_anchor_order :
  forall rows : list EnhancedExcelRow,
  exists cs : list SemanticCluster,
    identifySemanticClusters rows = Some cs
    /\ StronglySorted lt (map (fun c => MainPost.index (mainPost c)) cs)
    /\ forall k c, nth_error cs k = Some c -> id c = ("cluster-" ++ JS.decimal k)%string.
Proof.
  intros rows. destruct (identifySemanticClusters_scan rows) as (st & Hfold & Hcs & _).
  exists (fst st). split; [exact Hcs |]. split.
  - apply (foldM_anchors_increase rows rows 0 ([], []) st); simpl; try constructor.
    exact Hfold.
  - intros k c Hk.
    destruct (foldM_scanShape rows _ _ _ scanShape_initial Hfold) as [Hshape _].
    now destruct (Hshape k c Hk).
Qed.

(** X14. Each cluster carries one link per member, in the order of the
    members: from the anchor to the member, a different row, with the
    member's score as relevance, which exceeds 0.3, and an anchor text of at
    most 50 characters made from the member's title. The theme of the
    cluster is that of the title and keywords of the anchor row. *)
Theorem cluster_links_mirror_members :
  forall rows : list EnhancedExcelRow,
  exists cs : list SemanticCluster,
    identifySemanticClusters rows = Some cs
    /\ forall c, In c cs ->
         theme c = extractTheme (JS.orEmpty (B (MainPost.row (mainPost c))))
                                (JS.orEmpty (C (MainPost.row (mainPost c))))
         /\ List.length (internalLinkOpportunities c) = List.length (relatedPosts c)
         /\ forall n p,
              nth_error (relatedPosts c) n = Some p ->
              exists link,
                nth_error (internalLinkOpportunities c) n = Some link
                /\ ClusterLink.fromIndex link = MainPost.index (mainPost c)
                /\ ClusterLink.toIndex link = SimilarPost.index p
                /\ ClusterLink.toIndex link <> ClusterLink.fromIndex link
                /\ ClusterLink.relevance link = SimilarPost.similarity p
                /\ (0.3 <? ClusterLink.relevance link)%float = true
                /\ ClusterLink.suggestedAnchor link
                   = generateAnchorText (JS.orEmpty (B (SimilarPost.row p)))
                /\ String.length (ClusterLink.suggestedAnchor link) <= 50.
Proof.
  intros rows. destruct (identifySemanticClusters_scan rows) as (st & Hfold & Hcs & Hok & _).
  exists (fst st). split; [exact Hcs |]. intros c Hc.
  destruct (foldM_scanShape rows _ _ _ scanShape_initial Hfold) as [Hshape _].
  apply In_nth_error in Hc. destruct Hc as [k Hk].
  destruct (Hshape k c Hk) as (_ & Htheme & Hlinks).
  rewrite Forall_forall in Hok. destruct (Hok c (nth_error_In _ _ Hk)) as (_ & _ & _ & Hmem).
  rewrite Forall_forall in Hmem.
  split; [exact Htheme |]. split; [now rewrite Hlinks, length_map |].
  intros n p Hp. rewrite Hlinks, nth_error_map, Hp. cbn [option_map].
  eexists. split; [reflexivity |]. cbn [ClusterLink.fromIndex ClusterLink.toIndex
    ClusterLink.relevance ClusterLink.suggestedAnchor].
  destruct (Hmem p (nth_error_In _ _ Hp)) as (Hneq & _ & _ & Hgt).
  repeat split; auto. apply anchor_text_at_most_50.
Qed.

(** ** Size of the clusters *)

Lemma flat_map_length_at_least {A B : Type} (f : A -> list B) (n : nat) (l : list A) :
  (forall a, In a l -> n <= List.length (f a)) ->
  n * List.length l <= List.length (flat_map f l).
Proof.
  induction l as [| a l IH]; intros H; simpl; [lia |].
  rewrite length_app. pose proof (H a (or_introl eq_refl)).
  assert (n * List.length l <= List.length (flat_map f l)) by (apply IH; intros; apply H; now right).
  lia.
Qed.

Lemma clusterOK_indices rows c :
  clusterOK rows c ->
  2 <= List.length (clusterIndices c)
  /\ Forall (fun i => i < List.length rows) (clusterIndices c).
Proof.
  intros (Hanchor & Hne & _ & Hmem). unfold clusterIndices. split.
  - simpl. rewrite length_map. destruct (relatedPosts c); [congruence | simpl; lia].
  - constructor.
    + apply nth_error_Some. congruence.
    + apply Forall_forall. intros i Hi. apply in_map_iff in Hi. destruct Hi as (p & <- & Hp).
      rewrite Forall_forall in Hmem. destruct (Hmem p Hp) as (_ & Hrow & _).
      apply nth_error_Some. congruence.
Qed.

(** X15. Every cluster holds at least two rows, its anchor and one member
    or more, all of them rows of the list; so there are at most half as
    many clusters as rows, and a list of fewer than two rows has none. *)
Theorem clusters_hold_two_rows_or_more :
  forall rows : list EnhancedExcelRow,
  exists cs : list SemanticCluster,
    identifySemanticClusters rows = Some cs
    /\ (forall c, In c cs ->
          2 <= List.length (clusterIndices c)
          /\ Forall (fun i => i < List.length rows) (clusterIndices c))
    /\ 2 * List.length cs <= List.length rows
    /\ (List.length rows < 2 -> cs = []).
Proof.
  intros rows. destruct (identifySemanticClusters_scan rows) as (st & _ & Hcs & Hok & _ & Hnd).
  rewrite Forall_forall in Hok.
  assert (2 * List.length (fst st) <= List.length rows) as Hbound.
  { apply Nat.le_trans with (List.length (flat_map clusterIndices (fst st))).
    - apply flat_map_length_at_least. intros c Hc. now apply (clusterOK_indices rows), Hok.
    - assert (List.length (seq 0 (List.length rows)) = List.length rows) as <-
        by apply length_seq.
      apply NoDup_incl_length; [exact Hnd |].
      intros i Hi. apply in_flat_map in Hi. destruct Hi as (c & Hc & Hi).
      destruct (clusterOK_indices rows c (Hok c Hc)) as [_ Hall].
      rewrite Forall_forall in Hall. apply in_seq. specialize (Hall i Hi). lia. }
  exists (fst st). split; [exact Hcs |]. split; [| split].
  - intros c Hc. now apply clusterOK_indices, Hok.
  - exact Hbound.
  - intros Hsmall. destruct (fst st); [reflexivity | simpl in Hbound; lia].
Qed.

(** ** Rows left out of every cluster *)

Lemma foldM_split {A S : Type} (f : S -> A -> option S) (l1 l2 : list A) (a : A) (s s' : S) :
  foldM f (l1 ++ a :: l2) s = Some s' ->
  exists s1 s2, foldM f l1 s = Some s1 /\ f s1 a = Some s2 /\ foldM f l2 s2 = Some s'.
Proof.
  rewrite foldM_app. destruct (foldM f l1 s) as [s1 |]; cbn [bind]; [| discriminate].
  simpl. destruct (f s1 a) as [s2 |] eqn:E; cbn [bind]; [| discriminate].
  intros H. exists s1, s2. auto.
Qed.

Lemma extends_refl st : extends st st.
Proof. split; [exists []; now rewrite app_nil_r | auto]. Qed.

Lemma extends_trans st1 st2 st3 : extends st1 st2 -> extends st2 st3 -> extends st1 st3.
Proof.
  intros [[m1 H1] P1] [[m2 H2] P2]. split; [| auto].
  exists (m1 ++ m2). now rewrite H2, H1, app_assoc.
Qed.

Lemma clusterStep_extends rows st ir st' :
  clusterStep rows st ir = Some st' -> extends st st'.
Proof.
  destruct st as [clusters processed], ir as [index row]. intros H.
  apply clusterStep_new_cluster in H.
  destruct H as [-> | (_ & c & -> & _)]; [apply extends_refl |].
  split; simpl.
  - now exists [c].
  - intros i Hi. apply has_fold_add. left. rewrite has_add, Hi. apply orb_true_r.
Qed.

Lemma foldM_extends rows l :
  forall st st', foldM (clusterStep rows) l st = Some st' -> extends st st'.
Proof.
  induction l as [| a l IH]; intros st st' H; simpl in H.
  - inversion H; subst. apply extends_refl.
  - destruct (clusterStep rows st a) as [s1 |] eqn:E; cbn [bind] in H; [| discriminate H].
    eapply extends_trans; [eapply clusterStep_extends; eauto | now apply IH].
Qed.

Lemma In_nonNull_map_intro {A B : Type} (f : A -> option B) (l : list A) (a : A) (b : B) :
  In a l -> f a = Some b -> In b (nonNull (map f l)).
Proof.
  induction l as [| x l IH]; simpl; [contradiction |].
  intros [-> | Hin] Hf.
  - rewrite Hf. now left.
  - destruct (f x); [right |]; now apply IH.
Qed.

(** An unprocessed row that has an unprocessed neighbour scoring above 0.3
    becomes the anchor of a cluster at its turn. *)
Lemma clusterStep_anchors rows clusters processed i ri j rj st' :
  has processed i = false -> has processed j = false ->
  nth_error rows j = Some rj -> j <> i ->
  (0.3 <? score ri rj)%float = true ->
  clusterStep rows (clusters, processed) (i, ri) = Some st' ->
  exists c, In c (fst st') /\ MainPost.index (mainPost c) = i.
Proof.
  intros Hi Hj Hrj Hne Hgt Hstep.
  assert (In (SimilarPost.mk j (score ri rj) rj)
             (nonNull (map (candidate processed i ri) (indexed rows)))) as Hin.
  { apply (In_nonNull_map_intro _ _ (j, rj)); [now apply nth_error_In_indexed |].
    unfold candidate. assert ((i =? j) = false) as -> by (apply Nat.eqb_neq; lia).
    now rewrite Hj, Hgt. }
  unfold clusterStep in Hstep. rewrite Hi, similarPostsOf_eq in Hstep. cbn [bind] in Hstep.
  destruct (nonNull (map (candidate processed i ri) (indexed rows))) as [| p ps];
    [contradiction |].
  cbn [List.length Nat.ltb Nat.leb] in Hstep. injection Hstep as <-.
  eexists. split; [cbn [fst]; apply in_or_app; right; left; reflexivity | reflexivity].
Qed.

(** X17. The rows left out of every cluster are pairwise dissimilar: no
    such row scores above 0.3 against another such row, in either order of
    the two. *)
Theorem unclustered_rows_are_dissimilar :
  forall rows : list EnhancedExcelRow,
  exists cs : list SemanticCluster,
    identifySemanticClusters rows = Some cs
    /\ forall i j ri rj,
         nth_error rows i = Some ri -> nth_error rows j = Some rj -> i <> j ->
         (forall c, In c cs -> ~ In i (clusterIndices c)) ->
         (forall c, In c cs -> ~ In j (clusterIndices c)) ->
         (0.3 <? score ri rj)%float = false.
Proof.
  intros rows. destruct (identifySemanticClusters_scan rows) as (st & Hfold & Hcs & _).
  exists (fst st). split; [exact Hcs |].
  intros i j ri rj Hi Hj Hne Houti Houtj.
  destruct (foldM_scanShape rows _ _ _ scanShape_initial Hfold) as [_ Hproc].
  assert (forall k, (forall c, In c (fst st) -> ~ In k (clusterIndices c)) ->
                    has (snd st) k = false) as Hfree.
  { intros k Hout. destruct (has (snd st) k) eqn:E; [| reflexivity].
    destruct (Hproc k E) as (c & Hc & Hin). now destruct (Hout c Hc). }
  rewrite <- (firstn_skipn_middle i (indexed rows) (indexed_nth rows i ri Hi)) in Hfold.
  apply foldM_split in Hfold. destruct Hfold as ([cl pr] & s2 & _ & Hstep & Hrest).
  pose proof (clusterStep_extends rows _ _ _ Hstep) as E1.
  pose proof (foldM_extends rows _ _ _ Hrest) as E2.
  destruct (extends_trans _ _ _ E1 E2) as [_ Hmono]. simpl in Hmono.
  assert (forall k, has (snd st) k = false -> has pr k = false) as Hback.
  { intros k Hk. destruct (has pr k) eqn:E; [| reflexivity]. rewrite (Hmono k E) in Hk.
    discriminate Hk. }
  destruct (0.3 <? score ri rj)%float eqn:Hgt; [exfalso | reflexivity].
  destruct (clusterStep_anchors rows cl pr i ri j rj s2
              (Hback i (Hfree i Houti)) (Hback j (Hfree j Houtj)) Hj ltac:(lia) Hgt Hstep)
    as (c & Hc & Hanchor).
  destruct E2 as [[more Hmore] _].
  apply (Houti c).
  - rewrite Hmore. apply in_or_app. now left.
  - unfold clusterIndices. left. exact Hanchor.
Qed.
